(** * go-routine-concurrency-stress: orchestration strategies, gate and counters

    A shallow embedding of the Go packages [internal/services],
    [internal/handlers], [internal/middleware], [internal/observability],
    [internal/routers] and [internal/config], as wired by [cmd/server],
    followed by the properties proved about them.  The monolithic [main.go]
    holds an earlier copy of the same handlers, wrappers and counters, with
    the same control flow (its merged error text starts with ["a:"]).

    Conventions of the embedding.
    - Instants and durations are integers counting nanoseconds, like Go's
      [time.Duration]; [Millisecond] is [1000000].
    - A [context.Context] is described by the instant at which its [Done]
      channel closes (if ever) and the error [Err] reports from then on.
    - The pseudo random draws ([rand.Float64], [rand.Intn]) and the choice
      a [select] makes between several ready cases are explicit arguments.
    - A blocking [select] resumes at the first instant at which one of its
      cases is ready; goroutine start-up and computation take no time. *)

From Stdlib Require Import ZArith QArith Lia List Ascii String.
From stdpp Require Import base tactics option list gmap strings.

Set Warnings "-register-all,-clear-no-such-hyp".
Local Open Scope string_scope.
Local Open Scope Z_scope.

(** ** Machine integers and time *)

(** Two's complement wrap-around of [int64] ([atomic.Int64], [time.Duration]). *)
Definition wrap64 (z : Z) : Z := (z + 2 ^ 63) mod 2 ^ 64 - 2 ^ 63.

Definition min_int64 : Z := - 2 ^ 63.
Definition max_int64 : Z := 2 ^ 63 - 1.

Definition Millisecond : Z := 1000000.

(** [time.Duration(n) * time.Millisecond] on [int64]. *)
Definition Duration_of_ms (n : Z) : Z := wrap64 (n * Millisecond).

(** [Duration.Milliseconds]: integer division truncating towards zero. *)
Definition Milliseconds (d : Z) : Z := Z.quot d Millisecond.

(** [time.Since(start).Milliseconds()] evaluated at instant [now]. *)
Definition SinceMs (start now : Z) : Z := Milliseconds (now - start).

(** Minimum of two optional instants, [None] standing for "never". *)
Definition omin (x y : option Z) : option Z :=
  match x, y with
  | Some a, Some b => Some (Z.min a b)
  | Some a, None => Some a
  | None, y => y
  end.

Definition omax (x y : option Z) : option Z :=
  match x, y with
  | Some a, Some b => Some (Z.max a b)
  | _, _ => None
  end.

(** ** Errors *)

Inductive ctxErr := Canceled | DeadlineExceeded.

(** The error values the program creates: [ctx.Err()], the simulated failure
    of service B, and [fmt.Errorf("A:%v B:%v", eA, eB)]. *)
Inductive error :=
| ErrCtx (e : ctxErr)
| ErrSimulated
| ErrBoth (eA eB : option error).

Fixpoint Error (e : error) : string :=
  match e with
  | ErrCtx Canceled => "context canceled"
  | ErrCtx DeadlineExceeded => "context deadline exceeded"
  | ErrSimulated => "service B simulated failure"
  | ErrBoth eA eB =>
      "A:" +:+ match eA with Some x => Error x | None => "<nil>" end +:+
      " B:" +:+ match eB with Some x => Error x | None => "<nil>" end
  end.

#[global] Instance ctxErr_eq_dec : EqDecision ctxErr.
Proof. solve_decision. Defined.

(** An error is a cancellation when it is the context's own error. *)
Definition is_ctx_error (e : error) : bool :=
  match e with ErrCtx _ => true | _ => false end.

(** ** Contexts *)

(** [ctxDone = Some (t, e)]: [Done()] is closed from instant [t] on and
    [Err()] is [e] from then on; [None]: the context is never cancelled. *)
Record Context := { ctxDone : option (Z * ctxErr) }.

Definition Background : Context := {| ctxDone := None |}.

Definition doneAt (ctx : Context) : option Z := fst <$> ctxDone ctx.

(** Is [<-ctx.Done()] ready at instant [now]? *)
Definition DoneReady (ctx : Context) (now : Z) : bool :=
  match ctxDone ctx with
  | Some (t, _) => t <=? now
  | None => false
  end.

(** [ctx.Err()] at instant [now]. *)
Definition Err (ctx : Context) (now : Z) : option error :=
  match ctxDone ctx with
  | Some (t, e) => if t <=? now then Some (ErrCtx e) else None
  | None => None
  end.

(** [context.WithTimeout(parent, d)] called at instant [now]: the child is
    done when the parent is, or at [now + d], whichever comes first.  It
    reports the parent's error when the parent is done by then, or was done
    already at [now]; [DeadlineExceeded] otherwise.  (At equal instants the
    parent is taken.) *)
Definition WithTimeout (parent : Context) (now d : Z) : Context :=
  match ctxDone parent with
  | Some (t, e) =>
      {| ctxDone := Some (Z.min t (now + d),
                          if (t <=? now) || (t <=? now + d) then e
                          else DeadlineExceeded) |}
  | None => {| ctxDone := Some (now + d, DeadlineExceeded) |}
  end.

(** ** Package services *)

Record ServiceAData := { A_Value : string; A_SleepMs : Z }.
Record ServiceBData := { B_Value : string; B_SleepMs : Z }.

Definition zeroA : ServiceAData := {| A_Value := ""; A_SleepMs := 0 |}.
Definition zeroB : ServiceBData := {| B_Value := ""; B_SleepMs := 0 |}.

(** [rand.Intn n] returns some [r] with [0 <= r < n]; the value drawn is an
    argument of the functions below. *)
Definition Intn_ok (n r : Z) : Prop := 0 <= r < n.

(** [randRange min max = min + rand.Intn(max-min+1)], [r] being the draw. *)
Definition randRange (min max : Z) (r : Z) : Z := min + r.

(** [rand.Float64() < 0.05] for a draw [u] in [[0,1)].  For every float64
    [u] the comparison with the float64 constant nearest to 0.05 agrees with
    the comparison of the exact values, which is what is computed here. *)
Definition Qltb (x y : Q) : bool :=
  (Qnum x * Z.pos (Qden y) <? Qnum y * Z.pos (Qden x))%Z.

Definition p_err : Q := 5 # 100.

(** The two-way [select] of the services:
    [case <-time.After(d)] against [case <-ctx.Done()], entered at [now].
    Returns which case ran and when; [tie] decides when both become ready
    at the same instant ([true]: the timer). *)
Inductive fired := Timer | CtxDone.

Definition select_timer_ctx (ctx : Context) (now d : Z) (tie : bool) : fired * Z :=
  let timer := now + d in
  match doneAt ctx with
  | None => (Timer, timer)
  | Some t =>
      let c := Z.max t now in
      if c <? timer then (CtxDone, c)
      else if timer <? c then (Timer, timer)
      else if tie then (Timer, timer) else (CtxDone, c)
  end.

(** Random draws consumed by one call of a service. *)
Record drawsA := { a_intn : Z; a_tie : bool }.
Record drawsB := { b_float : Q; b_intn : Z; b_tie : bool }.

(** [ServiceA]: result, error and the instant at which the call returns. *)
Definition ServiceA (ctx : Context) (now : Z) (dr : drawsA)
  : ServiceAData * option error * Z :=
  let ms := randRange 50 150 (a_intn dr) in
  match select_timer_ctx ctx now (Duration_of_ms ms) (a_tie dr) with
  | (Timer, t) => ({| A_Value := "data-from-A"; A_SleepMs := ms |}, None, t)
  | (CtxDone, t) => (zeroA, Err ctx t, t)
  end.

(** [ServiceB]. *)
Definition ServiceB (ctx : Context) (now : Z) (dr : drawsB)
  : ServiceBData * option error * Z :=
  if Qltb (b_float dr) p_err then (zeroB, Some ErrSimulated, now)
  else
    let ms := randRange 300 1200 (b_intn dr) in
    match select_timer_ctx ctx now (Duration_of_ms ms) (b_tie dr) with
    | (Timer, t) => ({| B_Value := "data-from-B"; B_SleepMs := ms |}, None, t)
    | (CtxDone, t) => (zeroB, Err ctx t, t)
    end.

(** ** Package observability *)

(** The instruments of [Metrics].  A histogram is the list of its recorded
    values (most recent first), a counter a map from its attribute to the
    sum; [inflight] is the [sync.Map] from endpoint to its [atomic.Int64].
    The ["status"] attribute is kept as the integer that [strconv.Itoa]
    prints. *)
Record Metrics := {
  HTTPRequestsTotal : gmap (string * Z) Z;
  HTTPRequestDuration : list (string * Z * Z);
  ServiceDuration : list (string * Z);
  ServiceErrors : gmap string Z;
  SemWaitB : list Z;
  inflight : gmap string Z
}.

(** [NewMetrics]: fresh instruments, empty in-flight map. *)
Definition NewMetrics : Metrics :=
  {| HTTPRequestsTotal := ∅; HTTPRequestDuration := []; ServiceDuration := [];
     ServiceErrors := ∅; SemWaitB := []; inflight := ∅ |}.

Definition set_inflight (f : gmap string Z → gmap string Z) (m : Metrics) : Metrics :=
  {| HTTPRequestsTotal := HTTPRequestsTotal m;
     HTTPRequestDuration := HTTPRequestDuration m;
     ServiceDuration := ServiceDuration m; ServiceErrors := ServiceErrors m;
     SemWaitB := SemWaitB m; inflight := f (inflight m) |}.

(** [Int64Counter.Add(ctx, n, attrs)]. *)
Definition counter_Add {K} `{Countable K} (k : K) (n : Z) (c : gmap K Z) : gmap K Z :=
  <[k := wrap64 (default 0 (c !! k) + n)]> c.

(** [sync.Map.LoadOrStore]: the stored cell, and whether it was loaded. *)
Definition LoadOrStore (k : string) (v : Z) (m : gmap string Z)
  : gmap string Z * Z * bool :=
  match m !! k with
  | Some x => (m, x, true)
  | None => (<[k := v]> m, v, false)
  end.

(** [Add(delta)] of the [atomic.Int64] cell stored under [k]. *)
Definition cell_Add (k : string) (delta : Z) (m : gmap string Z) : gmap string Z :=
  alter (λ v, wrap64 (v + delta)) k m.

(** [IncInflight] and [DecInflight] on the in-flight map. *)
Definition IncInflight (endpoint : string) (m : gmap string Z) : gmap string Z :=
  let '(m', _, _) := LoadOrStore endpoint 0 m in
  cell_Add endpoint 1 m'.

Definition DecInflight (endpoint : string) (m : gmap string Z) : gmap string Z :=
  match m !! endpoint with
  | Some _ => cell_Add endpoint (-1) m
  | None => m
  end.

(** What the [http_inflight] gauge callback observes for an endpoint
    ([None]: no observation, the endpoint has no entry). *)
Definition observe (endpoint : string) (m : gmap string Z) : option Z := m !! endpoint.

(** The value of a counter, an endpoint without entry counting for zero. *)
Definition inflight_value (endpoint : string) (m : gmap string Z) : Z :=
  default 0 (m !! endpoint).

(** ** The world threaded through a request *)

(** [calls] is the log of the invocations of the two service stubs (most
    recent first): the call counter of the stubs. *)
Inductive svc := SvcA | SvcB.

#[global] Instance svc_eq_dec : EqDecision svc.
Proof. solve_decision. Defined.

Definition svc_name (s : svc) : string :=
  match s with SvcA => "A" | SvcB => "B" end.

Record World := { metrics : Metrics; calls : list svc }.

Definition M (A : Type) : Type := World → A * World.

#[global] Instance M_ret : MRet M := λ A a w, (a, w).
#[global] Instance M_bind : MBind M :=
  λ A B k m w, let '(a, w') := m w in k a w'.

Definition log_call (s : svc) : M unit :=
  λ w, (tt, {| metrics := metrics w; calls := s :: calls w |}).

Definition record_ServiceDuration (s : svc) (ms : Z) : M unit :=
  λ w, let m := metrics w in
  (tt, {| metrics :=
            {| HTTPRequestsTotal := HTTPRequestsTotal m;
               HTTPRequestDuration := HTTPRequestDuration m;
               ServiceDuration := (svc_name s, ms) :: ServiceDuration m;
               ServiceErrors := ServiceErrors m;
               SemWaitB := SemWaitB m; inflight := inflight m |};
          calls := calls w |}).

Definition add_ServiceErrors (s : svc) : M unit :=
  λ w, let m := metrics w in
  (tt, {| metrics :=
            {| HTTPRequestsTotal := HTTPRequestsTotal m;
               HTTPRequestDuration := HTTPRequestDuration m;
               ServiceDuration := ServiceDuration m;
               ServiceErrors := counter_Add (svc_name s) 1 (ServiceErrors m);
               SemWaitB := SemWaitB m; inflight := inflight m |};
          calls := calls w |}).

Definition record_SemWaitB (ms : Z) : M unit :=
  λ w, let m := metrics w in
  (tt, {| metrics :=
            {| HTTPRequestsTotal := HTTPRequestsTotal m;
               HTTPRequestDuration := HTTPRequestDuration m;
               ServiceDuration := ServiceDuration m;
               ServiceErrors := ServiceErrors m;
               SemWaitB := ms :: SemWaitB m; inflight := inflight m |};
          calls := calls w |}).

Definition record_HTTP (endpoint : string) (status elapsedMs : Z) : M unit :=
  λ w, let m := metrics w in
  (tt, {| metrics :=
            {| HTTPRequestsTotal := counter_Add (endpoint, status) 1 (HTTPRequestsTotal m);
               HTTPRequestDuration := (endpoint, status, elapsedMs) :: HTTPRequestDuration m;
               ServiceDuration := ServiceDuration m;
               ServiceErrors := ServiceErrors m;
               SemWaitB := SemWaitB m; inflight := inflight m |};
          calls := calls w |}).

Definition on_inflight (f : gmap string Z → gmap string Z) : M unit :=
  λ w, (tt, {| metrics := set_inflight f (metrics w); calls := calls w |}).

(** ** Package handlers: the service wrappers *)

(** [callServiceA], entered at [now]: the stub is invoked, its duration is
    recorded, and an error is counted. *)
Definition callServiceA (ctx : Context) (now : Z) (dr : drawsA)
  : M (ServiceAData * option error * Z) :=
  log_call SvcA ;;
  let '(d, err, t) := ServiceA ctx now dr in
  record_ServiceDuration SvcA (SinceMs now t) ;;
  (if err is Some _ then add_ServiceErrors SvcA else mret tt) ;;
  mret (d, err, t).

Definition callServiceB (ctx : Context) (now : Z) (dr : drawsB)
  : M (ServiceBData * option error * Z) :=
  log_call SvcB ;;
  let '(d, err, t) := ServiceB ctx now dr in
  record_ServiceDuration SvcB (SinceMs now t) ;;
  (if err is Some _ then add_ServiceErrors SvcB else mret tt) ;;
  mret (d, err, t).

(** ** Package models and the responses written *)

Record CombinedResponse := {
  C_ServiceAData : ServiceAData;
  C_ServiceBData : ServiceBData;
  C_Mode : string;
  C_TotalMs : Z
}.

Record ErrorResponse := { E_Mode : string; E_TotalMs : Z; E_Error : string }.

Inductive Body :=
| BodyCombined (r : CombinedResponse)
| BodyError (r : ErrorResponse).

(** [c.JSON(status, body)]. *)
Record Response := { status : Z; body : Body }.

Definition StatusOK : Z := 200.
Definition StatusRequestTimeout : Z := 408.
Definition StatusServiceUnavailable : Z := 503.

(** How a handler invocation ends: it returns having written a response at
    some instant, it panics, or it blocks for ever. *)
Inductive outcome :=
| Returned (r : Response) (at_ : Z)
| Panicked
| Blocked.

(** [respondErr], called at instant [now]; [err.Error()] on a nil error is
    a nil dereference. *)
Definition respondErr (mode : string) (start now : Z) (st : Z) (err : option error)
  : outcome :=
  match err with
  | Some e =>
      Returned {| status := st;
                  body := BodyError {| E_Mode := mode;
                                       E_TotalMs := SinceMs start now;
                                       E_Error := Error e |} |} now
  | None => Panicked
  end.

Definition respondOK (mode : string) (start now : Z)
    (a : ServiceAData) (b : ServiceBData) : outcome :=
  Returned {| status := StatusOK;
              body := BodyCombined {| C_ServiceAData := a; C_ServiceBData := b;
                                      C_Mode := mode;
                                      C_TotalMs := SinceMs start now |} |} now.

(** ** The fan-in loop *)

Record aRes := { ar_d : ServiceAData; ar_e : option error }.
Record bRes := { br_d : ServiceBData; br_e : option error }.

(** The variables of the loop. *)
Record loopVars := {
  gotA : bool; gotB : bool;
  va : ServiceAData; vb : ServiceBData;
  eA : option error; eB : option error
}.

Definition loopInit : loopVars :=
  {| gotA := false; gotB := false; va := zeroA; vb := zeroB; eA := None; eB := None |}.

(** The three cases of the [select]. *)
Inductive scase := CaseA | CaseB | CaseDone.

#[global] Instance scase_eq_dec : EqDecision scase.
Proof. solve_decision. Defined.

(** A goroutine sends its result on its channel (buffer of one) at some
    instant, or never: [Some (t, r)] or [None].  The instant from which the
    receive can proceed, [None] once the result has been received. *)
Definition eventAt {R} (got : bool) (arr : option (Z * R)) : option Z :=
  if got then None else fst <$> arr.

Definition leb_opt (o : option Z) (t : Z) : bool :=
  if o is Some x then x <=? t else false.

(** A [select] entered at [now] first polls its cases; when none is ready
    the goroutine parks and is resumed by the first event.  The instant at
    which the [select] proceeds and whether it parked; [None] when no case
    ever becomes ready. *)
Definition selectAt (now : Z) (tA tB tD : option Z) : option (Z * bool) :=
  if leb_opt tA now || leb_opt tB now || leb_opt tD now then Some (now, false)
  else (λ t, (t, true)) <$> omin (omin tA tB) tD.

(** A result carrying the context's error was sent because [Done] was
    closed, hence after it: it cannot be what resumes a goroutine parked on
    a [select] that also waits for [Done]. *)
Definition afterDone (e : option error) : bool :=
  if e is Some (ErrCtx _) then true else false.

Definition lateFor (parked : bool) (tD : option Z) (t : Z) (e : option error) : bool :=
  parked && afterDone e && bool_decide (tD = Some t).

(** The choice among the ready cases: the first ready one in the priority
    order [prio] the scheduler supplies for this iteration. *)
Definition pick (prio : list scase) (ready : scase → bool) : option scase :=
  find ready (prio ++ [CaseA; CaseB; CaseDone]).

Inductive fanResult :=
| BothArrived (v : loopVars)
| DoneFired (err : option error).

(** Result of running a loop with fuel. *)
Inductive run (A : Type) :=
| Ret (a : A)
| Block
| OutOfFuel.
Arguments Ret {A} a.
Arguments Block {A}.
Arguments OutOfFuel {A}.

(** One pass through the [select] of the loop, entered at instant [now]:
    a result is received and the loop goes on, the [Done] case answers and
    returns, or no case is ever ready. *)
Inductive pass :=
| Received (now : Z) (v : loopVars)
| SawDone (err : option error) (now : Z)
| ParkedForEver.

Definition selectOnce (ctx : Context)
    (arrA : option (Z * aRes)) (arrB : option (Z * bRes))
    (prio : list scase) (now : Z) (v : loopVars) : pass :=
  let tA := eventAt (gotA v) arrA in
  let tB := eventAt (gotB v) arrB in
  let tD := doneAt ctx in
  match selectAt now tA tB tD with
  | None => ParkedForEver
  | Some (t, parked) =>
      let ready (c : scase) : bool :=
        match c with
        | CaseA => leb_opt tA t &&
                   negb (lateFor parked tD t (arrA ≫= λ p, ar_e (snd p)))
        | CaseB => leb_opt tB t &&
                   negb (lateFor parked tD t (arrB ≫= λ p, br_e (snd p)))
        | CaseDone => leb_opt tD t
        end in
      match pick prio ready, arrA, arrB with
      | Some CaseA, Some (_, ar), _ =>
          Received t {| gotA := true; gotB := gotB v; va := ar_d ar; vb := vb v;
                        eA := ar_e ar; eB := eB v |}
      | Some CaseB, _, Some (_, br) =>
          Received t {| gotA := gotA v; gotB := true; va := va v; vb := br_d br;
                        eA := eA v; eB := br_e br |}
      | Some CaseDone, _, _ => SawDone (Err ctx t) t
      | _, _, _ => ParkedForEver
      end
  end.

(** [for !(gotA && gotB) { select { ... } }] entered at instant [now];
    [sel] gives the priorities of the successive passes. *)
Fixpoint fanIn (fuel : nat) (ctx : Context)
    (arrA : option (Z * aRes)) (arrB : option (Z * bRes))
    (sel : list (list scase)) (now : Z) (v : loopVars) : run (fanResult * Z) :=
  if gotA v && gotB v then Ret (BothArrived v, now)
  else
    match fuel with
    | O => OutOfFuel
    | S fuel' =>
        match selectOnce ctx arrA arrB (hd [] sel) now v with
        | Received t v' => fanIn fuel' ctx arrA arrB (tl sel) t v'
        | SawDone err t => Ret (DoneFired err, t)
        | ParkedForEver => Block
        end
    end.

(** Two results are awaited, so two iterations consume them. *)
Definition fanInFuel : nat := 2.

(** The text common to [Async], [AsyncLimited] and [AsyncTimeout] from the
    declaration of the loop variables to the end of the handler. *)
Definition mergeAndRespond (mode : string) (ctx : Context) (start : Z)
    (arrA : option (Z * aRes)) (arrB : option (Z * bRes))
    (sel : list (list scase)) : outcome :=
  match fanIn fanInFuel ctx arrA arrB sel start loopInit with
  | Ret (DoneFired err, t) => respondErr mode start t StatusRequestTimeout err
  | Ret (BothArrived v, t) =>
      if bool_decide (eA v ≠ None ∨ eB v ≠ None)
      then respondErr mode start t StatusServiceUnavailable (Some (ErrBoth (eA v) (eB v)))
      else respondOK mode start t (va v) (vb v)
  | Block | OutOfFuel => Blocked
  end.

(** ** Channels used as semaphores *)

(** A channel of [struct{}]: only its capacity and the number of buffered
    elements matter. *)
Record chan := { chan_cap : Z; chan_len : Z }.

(** [make(chan struct{}, n)] panics when [n] is negative. *)
Definition make_chan (n : Z) : option chan :=
  if n <? 0 then None else Some {| chan_cap := n; chan_len := 0 |}.

(** [ch <- struct{}{}] with no receiver waiting: proceeds when the buffer
    has room, blocks ([None]) otherwise. *)
Definition chan_send (ch : chan) : option chan :=
  if chan_len ch <? chan_cap ch
  then Some {| chan_cap := chan_cap ch; chan_len := chan_len ch + 1 |}
  else None.

(** [<-ch] with no sender waiting: proceeds when the buffer is not empty. *)
Definition chan_recv (ch : chan) : option chan :=
  if 0 <? chan_len ch
  then Some {| chan_cap := chan_cap ch; chan_len := chan_len ch - 1 |}
  else None.

(** ** Package handlers *)

Record Handlers := { SemB : chan; TimeoutMs : Z }.

Definition New (semB : chan) (timeoutMs : Z) : Handlers :=
  {| SemB := semB; TimeoutMs := timeoutMs |}.

(** What one request brings in besides the handler's own state: the
    request context, the instant at which the handler is entered, and the
    choices left to the environment during the request: the random draws of
    the two services, the priorities of the fan-in [select], the instant (if
    any) from which the send on [SemB] can proceed, and the choice of the
    B goroutine's [select] when the gate and [Done] are ready together. *)
Record GinContext := {
  RequestContext : Context;
  entered : Z;
  drawA : drawsA;
  drawB : drawsB;
  selPrio : list (list scase);
  gateFree : option Z;
  gateTie : bool
}.

Definition HandlerFunc : Type := GinContext → M outcome.

(** [Sync]. *)
Definition Sync (h : Handlers) : HandlerFunc := λ c,
  let start := entered c in
  let ctx := RequestContext c in
  '(a, errA, t1) ← callServiceA ctx start (drawA c);
  if errA is Some _ then mret (respondErr "sync" start t1 StatusRequestTimeout errA)
  else
    '(b, errB, t2) ← callServiceB ctx t1 (drawB c);
    if errB is Some _ then mret (respondErr "sync" start t2 StatusServiceUnavailable errB)
    else mret (respondOK "sync" start t2 a b).

(** The goroutine [d, e := h.callServiceA(ctx); aCh <- aRes{d, e}] started
    at [start]: the instant of the send and the value sent. *)
Definition goA (ctx : Context) (start : Z) (dr : drawsA) : M (option (Z * aRes)) :=
  '(d, e, t) ← callServiceA ctx start dr;
  mret (Some (t, {| ar_d := d; ar_e := e |})).

Definition goB (ctx : Context) (start : Z) (dr : drawsB) : M (option (Z * bRes)) :=
  '(d, e, t) ← callServiceB ctx start dr;
  mret (Some (t, {| br_d := d; br_e := e |})).

(** [Async]. *)
Definition Async (h : Handlers) : HandlerFunc := λ c,
  let start := entered c in
  let ctx := RequestContext c in
  arrA ← goA ctx start (drawA c);
  arrB ← goB ctx start (drawB c);
  mret (mergeAndRespond "async" ctx start arrA arrB (selPrio c)).

(** The goroutine of [AsyncLimited] that guards service B by the semaphore.
    Its [select] takes the case that is ready first, counted from [start];
    [tie] decides when the send on [SemB] and [Done] are ready together
    ([true]: the send).  Besides the send on [bCh] the goroutine reports the
    instants at which the token was taken and given back by the deferred
    receive. *)
Record limitedB := { sentB : option (Z * bRes); held : option (Z * Z) }.

Definition goB_limited (ctx : Context) (start : Z) (free : option Z) (tie : bool)
    (dr : drawsB) : M limitedB :=
  let waitStart := start in
  let acquire (s : Z) : M limitedB :=
    record_SemWaitB (SinceMs waitStart s) ;;
    '(d, e, t) ← callServiceB ctx s dr;
    mret {| sentB := Some (t, {| br_d := d; br_e := e |}); held := Some (s, t) |} in
  let cancel (t : Z) : M limitedB :=
    mret {| sentB := Some (t, {| br_d := zeroB; br_e := Err ctx t |}); held := None |} in
  match Z.max start <$> free, Z.max start <$> doneAt ctx with
  | None, None => mret {| sentB := None; held := None |}
  | Some s, None => acquire s
  | None, Some t => cancel t
  | Some s, Some t =>
      if s <? t then acquire s
      else if t <? s then cancel t
      else if tie then acquire s else cancel t
  end.

(** [AsyncLimited]. *)
Definition AsyncLimited (h : Handlers) : HandlerFunc := λ c,
  let start := entered c in
  let ctx := RequestContext c in
  arrA ← goA ctx start (drawA c);
  lb ← goB_limited ctx start (gateFree c) (gateTie c) (drawB c);
  mret (mergeAndRespond "async-limited" ctx start arrA (sentB lb) (selPrio c)).

(** [AsyncTimeout]. *)
Definition AsyncTimeout (h : Handlers) : HandlerFunc := λ c,
  let start := entered c in
  let parent := RequestContext c in
  let ctx := WithTimeout parent start (Duration_of_ms (TimeoutMs h)) in
  arrA ← goA ctx start (drawA c);
  arrB ← goB ctx start (drawB c);
  mret (mergeAndRespond "async-timeout" ctx start arrA arrB (selPrio c)).

(** ** Package middleware *)

(** [Instrument]: the deferred [DecInflight] runs when the wrapped handler
    returns or panics; the request counter and the latency histogram are
    reached only when it returns. *)
Definition Instrument (endpoint : string) (next : HandlerFunc) : HandlerFunc := λ c,
  on_inflight (IncInflight endpoint) ;;
  let start := entered c in
  o ← next c;
  match o with
  | Returned r t =>
      record_HTTP endpoint (status r) (SinceMs start t) ;;
      on_inflight (DecInflight endpoint) ;;
      mret o
  | Panicked => on_inflight (DecInflight endpoint) ;; mret o
  | Blocked => mret o
  end.

(** ** Package routers *)

(** [NewRouter]: the instrumented handler registered for a path. *)
Definition NewRouter (h : Handlers) (path : string) : option HandlerFunc :=
  if decide (path = "/sync") then Some (Instrument "sync" (Sync h))
  else if decide (path = "/async") then Some (Instrument "async" (Async h))
  else if decide (path = "/async-limited")
       then Some (Instrument "async-limited" (AsyncLimited h))
  else if decide (path = "/async-timeout")
       then Some (Instrument "async-timeout" (AsyncTimeout h))
  else None.

(** ** Package config *)

(** [strconv.Atoi] of the standard library: an optional sign followed by
    one or more decimal digits, whose value fits [int]; an error ([None])
    otherwise. *)
Definition digit (c : ascii) : option Z :=
  let n := Z.of_nat (nat_of_ascii c) in
  if (48 <=? n) && (n <=? 57) then Some (n - 48) else None.

Fixpoint digits (s : string) (acc : Z) : option Z :=
  match s with
  | EmptyString => Some acc
  | String c s' => d ← digit c; digits s' (acc * 10 + d)
  end.

Definition Atoi (s : string) : option Z :=
  let '(neg, ds) :=
    match s with
    | String "-"%char r => (true, r)
    | String "+"%char r => (false, r)
    | _ => (false, s)
    end in
  match ds with
  | EmptyString => None
  | _ =>
      n ← digits ds 0;
      let v := if neg : bool then - n else n in
      if (min_int64 <=? v) && (v <=? max_int64) then Some v else None
  end.

(** The process environment; [os.Getenv] gives the empty string for a
    variable that is not set. *)
Definition Getenv (env : gmap string string) (key : string) : string :=
  default "" (env !! key).

Definition getEnv (env : gmap string string) (key def : string) : string :=
  let v := Getenv env key in
  if decide (v = "") then def else v.

Definition getEnvInt (env : gmap string string) (key : string) (def : Z) : Z :=
  let v := Getenv env key in
  if decide (v = "") then def
  else match Atoi v with
       | Some n => n
       | None => def
       end.

Record Config := {
  Port : string;
  OtelEndpoint : string;
  ServiceName : string;
  AsyncTimeoutMs : Z;
  BConcurrencyLimit : Z;
  DisableTraces : bool
}.

Definition Load (env : gmap string string) : Config :=
  {| Port := getEnv env "PORT" "8080";
     OtelEndpoint := getEnv env "OTEL_EXPORTER_OTLP_ENDPOINT" "http://otel-collector:4318";
     ServiceName := getEnv env "OTEL_SERVICE_NAME" "go-goroutine-lab";
     AsyncTimeoutMs := getEnvInt env "ASYNC_TIMEOUT_MS" 600;
     BConcurrencyLimit := getEnvInt env "B_CONCURRENCY_LIMIT" 20;
     DisableTraces := bool_decide (getEnv env "OTEL_TRACES_EXPORTER" "" = "none") |}.

(** [main] of [cmd/server] up to the creation of the handlers; [None] when
    [make] panics on a negative capacity. *)
Definition serverHandlers (env : gmap string string) : option Handlers :=
  let cfg := Load env in
  semB ← make_chan (BConcurrencyLimit cfg);
  Some (New semB (AsyncTimeoutMs cfg)).

(** ** The semaphore shared by the B goroutines of [AsyncLimited]

    The goroutines of many requests run interleaved on the one channel
    [SemB].  Each goroutine is followed through the points of its body

      select { case h.SemB <- struct{}{}: ...; defer func() { <-h.SemB }()
               case <-ctx.Done(): bCh <- bRes{ServiceBData{}, ctx.Err()}; return }
      d, e := h.callServiceB(ctx)
      bCh <- bRes{d, e}

    and logs what it does to the semaphore. *)

Inductive gateEvent := Acquired | Released | Denied.

#[global] Instance gateEvent_eq_dec : EqDecision gateEvent.
Proof. solve_decision. Defined.

Inductive bpc :=
| AtSelect                 (* blocked on the select *)
| Holding                  (* token taken, release deferred, service B running *)
| Replying (r : bRes)      (* service B returned, about to send on bCh *)
| Returning                (* result sent, the deferred receive is next *)
| Refused                  (* Done case taken, about to send ctx.Err() on bCh *)
| Exited.

Record task := {
  pc : bpc;
  cancelled : option ctxErr;   (* the request context is done, with this error *)
  bCh : option bRes;           (* the result channel, buffer of one *)
  trace : list gateEvent       (* oldest first *)
}.

Definition spawn : task :=
  {| pc := AtSelect; cancelled := None; bCh := None; trace := [] |}.

Inductive action :=
| CtxFires (e : ctxErr)                       (* the context is cancelled *)
| SendSem                                     (* case h.SemB <- struct{}{} *)
| SeeDone                                     (* case <-ctx.Done() *)
| BReturns (d : ServiceBData) (e : option error)  (* callServiceB returns *)
| SendResult                                  (* bCh <- ... *)
| RunDefer                                    (* the deferred <-h.SemB *)
| MainReceives.                               (* the handler's case br := <-bCh *)

(** One step of a goroutine; [None] when the action is not what the
    goroutine does next, or would block. *)
Definition task_step (a : action) (sem : chan) (t : task) : option (chan * task) :=
  match a, pc t with
  | CtxFires e, _ =>
      Some (sem, {| pc := pc t;
                    cancelled := if cancelled t is Some e' then Some e' else Some e;
                    bCh := bCh t; trace := trace t |})
  | SendSem, AtSelect =>
      sem' ← chan_send sem;
      Some (sem', {| pc := Holding; cancelled := cancelled t; bCh := bCh t;
                     trace := trace t ++ [Acquired] |})
  | SeeDone, AtSelect =>
      if cancelled t is Some _
      then Some (sem, {| pc := Refused; cancelled := cancelled t; bCh := bCh t;
                         trace := trace t ++ [Denied] |})
      else None
  | BReturns d e, Holding =>
      Some (sem, {| pc := Replying {| br_d := d; br_e := e |};
                    cancelled := cancelled t; bCh := bCh t; trace := trace t |})
  | SendResult, Replying r =>
      if bCh t is None
      then Some (sem, {| pc := Returning; cancelled := cancelled t;
                         bCh := Some r; trace := trace t |})
      else None
  | SendResult, Refused =>
      if bCh t is None
      then Some (sem, {| pc := Exited; cancelled := cancelled t;
                         bCh := Some {| br_d := zeroB; br_e := ErrCtx <$> cancelled t |};
                         trace := trace t |})
      else None
  | RunDefer, Returning =>
      sem' ← chan_recv sem;
      Some (sem', {| pc := Exited; cancelled := cancelled t; bCh := bCh t;
                     trace := trace t ++ [Released] |})
  | MainReceives, _ =>
      if bCh t is Some _
      then Some (sem, {| pc := pc t; cancelled := cancelled t; bCh := None;
                         trace := trace t |})
      else None
  | _, _ => None
  end.

Record sys := { sem : chan; tasks : list task }.

(** [n] requests of the bounded strategy on a freshly made semaphore. *)
Definition boot (sem0 : chan) (n : nat) : sys :=
  {| sem := sem0; tasks := replicate n spawn |}.

Definition sys_step (ia : nat * action) (s : sys) : option sys :=
  t ← tasks s !! ia.1;
  '(sem', t') ← task_step ia.2 (sem s) t;
  Some {| sem := sem'; tasks := <[ia.1 := t']> (tasks s) |}.

Fixpoint exec (sched : list (nat * action)) (s : sys) : option sys :=
  match sched with
  | [] => Some s
  | ia :: rest => s' ← sys_step ia s; exec rest s'
  end.

(** A goroutine holds a token between its send on [SemB] and the deferred
    receive. *)
Definition holds (t : task) : Z :=
  match pc t with
  | Holding | Replying _ | Returning => 1
  | _ => 0
  end.

Definition total {A} (f : A → Z) (l : list A) : Z := foldr (λ x acc, f x + acc) 0 l.

Definition holders (s : sys) : Z := total holds (tasks s).

(** What is left for a goroutine that holds a token, service B returning
    [(d, e)] if it has not returned yet. *)
Definition remaining (p : bpc) (d : ServiceBData) (e : option error) : list action :=
  match p with
  | Holding => [BReturns d e; SendResult; RunDefer]
  | Replying _ => [SendResult; RunDefer]
  | Returning => [RunDefer]
  | _ => []
  end.

(** ** The in-flight counters under interleaved requests *)

Inductive ipc := NotEntered | InHandler | Left.

#[global] Instance ipc_eq_dec : EqDecision ipc.
Proof. solve_decision. Defined.

Record invocation := { endpoint : string; stage : ipc }.

Inductive iaction :=
| Enter    (* m.IncInflight(endpoint) *)
| Leave.   (* the deferred m.DecInflight(endpoint): the handler returned or panicked *)

Definition inv_step (a : iaction) (m : gmap string Z) (r : invocation)
  : option (gmap string Z * invocation) :=
  match a, stage r with
  | Enter, NotEntered =>
      Some (IncInflight (endpoint r) m, {| endpoint := endpoint r; stage := InHandler |})
  | Leave, InHandler =>
      Some (DecInflight (endpoint r) m, {| endpoint := endpoint r; stage := Left |})
  | _, _ => None
  end.

Record server := { gauges : gmap string Z; requests : list invocation }.

Definition server_step (ia : nat * iaction) (s : server) : option server :=
  r ← requests s !! ia.1;
  '(m', r') ← inv_step ia.2 (gauges s) r;
  Some {| gauges := m'; requests := <[ia.1 := r']> (requests s) |}.

Fixpoint serve (sched : list (nat * iaction)) (s : server) : option server :=
  match sched with
  | [] => Some s
  | ia :: rest => s' ← server_step ia s; serve rest s'
  end.

(** The requests that arrive, on the in-flight map of [NewMetrics]. *)
Definition startServer (eps : list string) : server :=
  {| gauges := inflight NewMetrics;
     requests := (λ ep, {| endpoint := ep; stage := NotEntered |}) <$> eps |}.

Definition inside (ep : string) (r : invocation) : Z :=
  if bool_decide (endpoint r = ep ∧ stage r = InHandler) then 1 else 0.

Definition inHandler (ep : string) (s : server) : Z := total (inside ep) (requests s).

(** ** Outcome kinds *)

Inductive kind := Success | DependencyFailure | Cancelled.

(** The kind a caller reads from the status of the response. *)
Definition kindOf (r : Response) : option kind :=
  if decide (status r = StatusOK) then Some Success
  else if decide (status r = StatusServiceUnavailable) then Some DependencyFailure
  else if decide (status r = StatusRequestTimeout) then Some Cancelled
  else None.

(** ** Vocabulary for the strategies *)

(** The three concurrent strategies, their handlers and mode names. *)
Inductive strategy := Unbounded | Bounded | Timeout.

Definition handlerOf (s : strategy) : Handlers → HandlerFunc :=
  match s with
  | Unbounded => Async
  | Bounded => AsyncLimited
  | Timeout => AsyncTimeout
  end.

Definition modeOf (s : strategy) : string :=
  match s with
  | Unbounded => "async"
  | Bounded => "async-limited"
  | Timeout => "async-timeout"
  end.

(** The context handed to the two goroutines and to the fan-in loop. *)
Definition sharedContext (s : strategy) (h : Handlers) (c : GinContext) : Context :=
  match s with
  | Unbounded | Bounded => RequestContext c
  | Timeout =>
      WithTimeout (RequestContext c) (entered c) (Duration_of_ms (TimeoutMs h))
  end.

(** What the two goroutines send, and when. *)
Definition taskA (s : strategy) (h : Handlers) (c : GinContext) (w : World)
  : option (Z * aRes) :=
  fst (goA (sharedContext s h c) (entered c) (drawA c) w).

Definition taskB (s : strategy) (h : Handlers) (c : GinContext) (w : World)
  : option (Z * bRes) :=
  match s with
  | Bounded =>
      sentB (fst (goB_limited (sharedContext s h c) (entered c)
                    (gateFree c) (gateTie c) (drawB c) w))
  | _ => fst (goB (sharedContext s h c) (entered c) (drawB c) w)
  end.

(** Results still awaited by the loop. *)
Definition pendings (v : loopVars) : nat :=
  (if gotA v then 0 else 1) + (if gotB v then 0 else 1).

(** Have both results been sent by instant [t]?  (A result already
    received has.) *)
Definition allBy (v : loopVars) (arrA : option (Z * aRes))
    (arrB : option (Z * bRes)) (t : Z) : bool :=
  (gotA v || leb_opt (fst <$> arrA) t) && (gotB v || leb_opt (fst <$> arrB) t).

(** The loop variables once both results are in. *)
Definition final (v : loopVars) (arrA : option (Z * aRes))
    (arrB : option (Z * bRes)) : loopVars :=
  {| gotA := true; gotB := true;
     va := if gotA v then va v else default zeroA (ar_d ∘ snd <$> arrA);
     vb := if gotB v then vb v else default zeroB (br_d ∘ snd <$> arrB);
     eA := if gotA v then eA v else arrA ≫= λ p, ar_e (snd p);
     eB := if gotB v then eB v else arrB ≫= λ p, br_e (snd p) |}.

(** What a goroutine has logged at each point of its body. *)
Definition task_ok (t : task) : Prop :=
  match pc t with
  | AtSelect => trace t = [] ∧ bCh t = None
  | Holding | Replying _ => trace t = [Acquired] ∧ bCh t = None
  | Returning => trace t = [Acquired]
  | Refused => trace t = [Denied] ∧ bCh t = None
  | Exited => trace t = [Acquired; Released] ∨ trace t = [Denied]
  end.

(** The invariant of the system of goroutines around the semaphore. *)
Definition gate_inv (capacity : Z) (s : sys) : Prop :=
  chan_cap (sem s) = capacity ∧
  chan_len (sem s) = holders s ∧
  0 <= chan_len (sem s) <= capacity ∧
  Forall task_ok (tasks s).

(** ** Further vocabulary *)

(** [Health]: [c.String(http.StatusOK, "ok")], status and text. *)
Definition Health : Z * string := (StatusOK, "ok").

(** What [NewRouter] registers, in the order of its [r.GET] calls: the
    liveness endpoint as it is, the four strategies wrapped by
    [Instrument] under an endpoint name. *)
Inductive registered :=
| Plain (reply : Z * string)
| Wrapped (endpoint : string) (f : HandlerFunc).

Definition routes (h : Handlers) : list (string * registered) :=
  [ ("/health", Plain Health);
    ("/sync", Wrapped "sync" (Sync h));
    ("/async", Wrapped "async" (Async h));
    ("/async-limited", Wrapped "async-limited" (AsyncLimited h));
    ("/async-timeout", Wrapped "async-timeout" (AsyncTimeout h)) ].

(** The [mode] field of a response body. *)
Definition modeField (b : Body) : string :=
  match b with
  | BodyCombined r => C_Mode r
  | BodyError r => E_Mode r
  end.

(** The instant and error of what a goroutine sends. *)
Definition sentA (arr : option (Z * aRes)) : option (Z * option error) :=
  (λ p, (p.1, ar_e p.2)) <$> arr.

Definition sentByB (arr : option (Z * bRes)) : option (Z * option error) :=
  (λ p, (p.1, br_e p.2)) <$> arr.

(** A result sent before the instant [tD]. *)
Definition early (tD : Z) (arr : option (Z * option error)) : Prop :=
  match arr with
  | Some (t, _) => t < tD
  | None => False
  end.

(** A result a loop parked before [tD] cannot receive before it sees
    [Done] closed at [tD]: it is never sent, sent later, or sent at [tD]
    with the context's error. *)
Definition behind (tD : Z) (arr : option (Z * option error)) : Prop :=
  match arr with
  | Some (t, e) => tD < t ∨ (t = tD ∧ afterDone e = true)
  | None => True
  end.

(** What is left of the body of a B goroutine, from any point after its
    [select], service B returning [(d, e)] if it has not returned yet. *)
Definition toExit (p : bpc) (d : ServiceBData) (e : option error) : list action :=
  match p with
  | Refused => [SendResult]
  | _ => remaining p d e
  end.

(** No goroutine of the system has ever taken a token. *)
Definition untouched (t : task) : Prop :=
  match pc t with
  | AtSelect => trace t = []
  | Refused | Exited => trace t = [Denied]
  | _ => False
  end.

(** The instruments that belong to the middleware: the request counter,
    the latency histogram and the in-flight map. *)
Definition front (w : World)
  : gmap (string * Z) Z * list (string * Z * Z) * gmap string Z :=
  (HTTPRequestsTotal (metrics w), HTTPRequestDuration (metrics w),
   inflight (metrics w)).

(** A request of endpoint [ep] that has entered its handler at some time. *)
Definition hit (ep : string) (r : invocation) : Z :=
  if bool_decide (endpoint r = ep ∧ stage r ≠ NotEntered) then 1 else 0.

(** * Properties *)

(** ** Arithmetic of the embedding *)

Lemma wrap64_small (z : Z) : min_int64 <= z <= max_int64 → wrap64 z = z.
Proof.
  unfold wrap64, min_int64, max_int64. intros Hz.
  rewrite Z.mod_small by lia. lia.
Qed.

Lemma wrap64_range (z : Z) : min_int64 <= wrap64 z <= max_int64.
Proof.
  unfold wrap64, min_int64, max_int64.
  pose proof (Z.mod_pos_bound (z + 2 ^ 63) (2 ^ 64) ltac:(lia)). lia.
Qed.

(** Adding one and then taking one away is the identity on [int64], also
    across the wrap-around. *)
Lemma wrap64_inc_dec (v : Z) :
  min_int64 <= v <= max_int64 → wrap64 (wrap64 (v + 1) + -1) = v.
Proof.
  unfold wrap64, min_int64, max_int64. intros Hv.
  destruct (decide (v = 2 ^ 63 - 1)) as [->|Hne].
  - reflexivity.
  - rewrite (Z.mod_small (v + 1 + 2 ^ 63)) by lia.
    replace (v + 1 + 2 ^ 63 - 2 ^ 63 + -1 + 2 ^ 63) with (v + 2 ^ 63) by lia.
    rewrite Z.mod_small by lia. lia.
Qed.

Lemma Duration_of_ms_small (n : Z) :
  min_int64 <= n * Millisecond <= max_int64 → Duration_of_ms n = n * Millisecond.
Proof. apply wrap64_small. Qed.

Lemma Qltb_spec (x y : Q) : Qltb x y = true ↔ (x < y)%Q.
Proof. unfold Qltb, Qlt. apply Z.ltb_lt. Qed.


(** ** The services *)

Lemma Err_at_done (ctx : Context) (t : Z) (e : ctxErr) (now : Z) :
  ctxDone ctx = Some (t, e) → t <= now → Err ctx now = Some (ErrCtx e).
Proof.
  intros H Hle. unfold Err. rewrite H.
  destruct (Z.leb_spec t now); [done | lia].
Qed.

Lemma DoneReady_false (ctx : Context) (now : Z) :
  DoneReady ctx now = false →
  ctxDone ctx = None ∨ ∃ t e, ctxDone ctx = Some (t, e) ∧ now < t.
Proof.
  unfold DoneReady. destruct (ctxDone ctx) as [[t e]|]; [|by left].
  intros H. right. exists t, e. split; [done|]. by apply Z.leb_gt.
Qed.

Lemma DoneReady_true (ctx : Context) (now : Z) :
  DoneReady ctx now = true → ∃ t e, ctxDone ctx = Some (t, e) ∧ t <= now.
Proof.
  unfold DoneReady. destruct (ctxDone ctx) as [[t e]|]; [|done].
  intros H. exists t, e. split; [done|]. by apply Z.leb_le.
Qed.

(** The sleep of service B, for a draw of [rand.Intn(901)]. *)
Lemma sleepB_duration (r : Z) :
  Intn_ok 901 r →
  300 <= randRange 300 1200 r <= 1200 ∧
  Duration_of_ms (randRange 300 1200 r) = randRange 300 1200 r * Millisecond.
Proof.
  unfold Intn_ok, randRange. intros Hr. split; [lia|].
  apply Duration_of_ms_small. unfold min_int64, max_int64, Millisecond. lia.
Qed.

Lemma sleepA_duration (r : Z) :
  Intn_ok 101 r →
  50 <= randRange 50 150 r <= 150 ∧
  Duration_of_ms (randRange 50 150 r) = randRange 50 150 r * Millisecond.
Proof.
  unfold Intn_ok, randRange. intros Hr. split; [lia|].
  apply Duration_of_ms_small. unfold min_int64, max_int64, Millisecond. lia.
Qed.

(** The two-way select, case by case. *)
Lemma select_never_done (ctx : Context) (now d : Z) (tie : bool) :
  ctxDone ctx = None → select_timer_ctx ctx now d tie = (Timer, now + d).
Proof. intros H. unfold select_timer_ctx, doneAt. by rewrite H. Qed.

Lemma select_timer_first (ctx : Context) (now d t : Z) (e : ctxErr) (tie : bool) :
  ctxDone ctx = Some (t, e) → now + d < t →
  0 <= d → select_timer_ctx ctx now d tie = (Timer, now + d).
Proof.
  intros H Hlt Hd. unfold select_timer_ctx, doneAt. rewrite H. simpl.
  destruct (Z.ltb_spec (Z.max t now) (now + d)); [lia|].
  destruct (Z.ltb_spec (now + d) (Z.max t now)); [done | lia].
Qed.

Lemma select_done_first (ctx : Context) (now d t : Z) (e : ctxErr) (tie : bool) :
  ctxDone ctx = Some (t, e) → t < now + d → 0 < d →
  select_timer_ctx ctx now d tie = (CtxDone, Z.max t now).
Proof.
  intros H Hlt Hd. unfold select_timer_ctx, doneAt. rewrite H. simpl.
  destruct (Z.ltb_spec (Z.max t now) (now + d)); [done | lia].
Qed.

Lemma select_tie (ctx : Context) (now d : Z) (e : ctxErr) (tie : bool) :
  ctxDone ctx = Some (now + d, e) → 0 <= d →
  select_timer_ctx ctx now d tie =
    if tie then (Timer, now + d) else (CtxDone, now + d).
Proof.
  intros H Hd. unfold select_timer_ctx, doneAt. rewrite H. simpl.
  rewrite Z.max_l by lia. rewrite Z.ltb_irrefl. done.
Qed.

(** Number of draws [k/n], [k < n], below a threshold. *)
Lemma count_below (m n : nat) :
  length (filter (λ k, k < m)%nat (seq 0 n)) = Nat.min m n.
Proof.
  induction n as [|n IH]; [by rewrite Nat.min_0_r|].
  rewrite seq_S, filter_app, length_app, IH. simpl.
  rewrite filter_cons. case_decide; simpl; lia.
Qed.

(** [rand.Float64() < 0.05] holds for exactly one draw in twenty of a grid
    of equally likely values of [[0,1)]. *)
Lemma one_in_twenty (p : positive) :
  length (filter (λ k, Qltb (Z.of_nat k # 20 * p) p_err = true)
                 (seq 0 (20 * Pos.to_nat p)))
  = Pos.to_nat p.
Proof.
  rewrite (list_filter_iff _ (λ k, k < Pos.to_nat p)%nat).
  - rewrite count_below. lia.
  - intros k. unfold Qltb, p_err. simpl. rewrite Z.ltb_lt. lia.
Qed.

(** C4: service B called with a context that is not done yet.  With a draw
    [u] of [rand.Float64] below 5% (one draw in twenty) it returns the
    simulated failure at once, at the instant of the call.  Otherwise the
    sleep is [300 + r] milliseconds for the draw [r] of [rand.Intn(901)],
    every value of [[300,1200]] being hit by exactly one draw; the call
    returns ["data-from-B"] with the sleep when the sleep ends before the
    context is done, and the context's error, at the instant the context is
    done, when that comes first. *)
Theorem ServiceB_contract (ctx : Context) (now : Z) (dr : drawsB) :
  DoneReady ctx now = false →
  let ms := randRange 300 1200 (b_intn dr) in
  let wake := now + ms * Millisecond in
  ((b_float dr < p_err)%Q →
     ServiceB ctx now dr = (zeroB, Some ErrSimulated, now)) ∧
  (¬ (b_float dr < p_err)%Q → Intn_ok 901 (b_intn dr) →
     300 <= ms <= 1200 ∧
     ((ctxDone ctx = None ∨ ∃ t e, ctxDone ctx = Some (t, e) ∧ wake < t) →
        ServiceB ctx now dr
        = ({| B_Value := "data-from-B"; B_SleepMs := ms |}, None, wake)) ∧
     (∀ t e, ctxDone ctx = Some (t, e) → t < wake →
        now < t ∧ ServiceB ctx now dr = (zeroB, Some (ErrCtx e), t))) ∧
  (∀ ms', 300 <= ms' <= 1200 →
     ∃ r, Intn_ok 901 r ∧ randRange 300 1200 r = ms' ∧
          ∀ r', randRange 300 1200 r' = ms' → r' = r) ∧
  (p_err == 5 / 100)%Q ∧
  (∀ p : positive,
     length (filter (λ k, Qltb (Z.of_nat k # 20 * p) p_err = true)
                    (seq 0 (20 * Pos.to_nat p))) = Pos.to_nat p).
Proof.
  intros Hnd ms wake.
  split; [|split; [|split; [|split]]].
  - intros Hu. unfold ServiceB. apply Qltb_spec in Hu. by rewrite Hu.
  - intros Hu Hr.
    assert (Qltb (b_float dr) p_err = false) as Hu'.
    { destruct (Qltb (b_float dr) p_err) eqn:E; [by apply Qltb_spec in E|done]. }
    destruct (sleepB_duration _ Hr) as [Hms Hdur]. fold ms in Hms, Hdur.
    split; [done|]. split.
    + intros Hlate. unfold ServiceB. rewrite Hu'. fold ms. rewrite Hdur.
      destruct Hlate as [Hn|(t & e & Ht & Hlt)].
      * by rewrite select_never_done.
      * rewrite (select_timer_first _ _ _ t e); [done..|].
        unfold Millisecond. lia.
    + intros t e Ht Hlt.
      apply DoneReady_false in Hnd as [Hn|(t' & e' & Ht' & Hlt')]; [congruence|].
      assert (t' = t) as -> by congruence.
      split; [done|].
      unfold ServiceB. rewrite Hu'. fold ms. rewrite Hdur.
      rewrite (select_done_first _ _ _ t e); [|done|done|unfold Millisecond; lia].
      rewrite Z.max_l by lia.
      by rewrite (Err_at_done _ t e) by (done || lia).
  - intros ms' Hms'. exists (ms' - 300). unfold Intn_ok, randRange.
    split; [lia|]. split; [lia|]. intros r' Hr'. lia.
  - reflexivity.
  - apply one_in_twenty.
Qed.

Lemma ServiceB_contract_witness :
  DoneReady {| ctxDone := Some (500 * Millisecond, DeadlineExceeded) |} 0 = false ∧
  ServiceB {| ctxDone := Some (500 * Millisecond, DeadlineExceeded) |} 0
           {| b_float := 1 # 2; b_intn := 700; b_tie := true |}
  = (zeroB, Some (ErrCtx DeadlineExceeded), 500 * Millisecond).
Proof.
  split; [reflexivity|].
  pose proof (ServiceB_contract
                {| ctxDone := Some (500 * Millisecond, DeadlineExceeded) |} 0
                {| b_float := 1 # 2; b_intn := 700; b_tie := true |}
                eq_refl) as (_ & H & _).
  apply H; [by vm_compute | by vm_compute | reflexivity | by vm_compute].
Defined.

(** C9: service B called with a context that is already done.  The draw of
    [rand.Float64] is looked at before the context: below 5% (one draw in
    twenty) the call reports the simulated failure, not the cancellation;
    otherwise it reports the context's error, both at the instant of the
    call. *)
Theorem ServiceB_failure_despite_expiry (ctx : Context) (now : Z) (dr : drawsB) :
  DoneReady ctx now = true →
  ((b_float dr < p_err)%Q →
     ServiceB ctx now dr = (zeroB, Some ErrSimulated, now)) ∧
  (¬ (b_float dr < p_err)%Q → Intn_ok 901 (b_intn dr) →
     ∃ e, Err ctx now = Some (ErrCtx e) ∧
          ServiceB ctx now dr = (zeroB, Some (ErrCtx e), now)) ∧
  (p_err == 5 / 100)%Q ∧
  (∀ p : positive,
     length (filter (λ k, Qltb (Z.of_nat k # 20 * p) p_err = true)
                    (seq 0 (20 * Pos.to_nat p))) = Pos.to_nat p).
Proof.
  intros Hd. apply DoneReady_true in Hd as (t & e & Ht & Hle).
  split; [|split; [|split]].
  - intros Hu. unfold ServiceB. apply Qltb_spec in Hu. by rewrite Hu.
  - intros Hu Hr. exists e. split; [by apply (Err_at_done _ t)|].
    unfold ServiceB.
    destruct (Qltb (b_float dr) p_err) eqn:Hu'; [by apply Qltb_spec in Hu'|].
    destruct (sleepB_duration _ Hr) as [Hms ->].
    rewrite (select_done_first _ _ _ t e); [|done|..].
    + rewrite Z.max_r by lia. by rewrite (Err_at_done _ t e) by (done || lia).
    + unfold Millisecond. lia.
    + unfold Millisecond. lia.
  - reflexivity.
  - apply one_in_twenty.
Qed.

Lemma ServiceB_failure_despite_expiry_witness :
  DoneReady {| ctxDone := Some (0, Canceled) |} 7 = true ∧
  ServiceB {| ctxDone := Some (0, Canceled) |} 7
           {| b_float := 1 # 100; b_intn := 0; b_tie := false |}
  = (zeroB, Some ErrSimulated, 7).
Proof.
  split; [reflexivity|].
  apply (ServiceB_failure_despite_expiry {| ctxDone := Some (0, Canceled) |} 7
           {| b_float := 1 # 100; b_intn := 0; b_tie := false |} eq_refl).
  by vm_compute.
Defined.

(** ** The service wrappers *)

Ltac unfold_M :=
  unfold mbind, M_bind, mret, M_ret, log_call, record_ServiceDuration,
    add_ServiceErrors, record_SemWaitB, record_HTTP, on_inflight in *.

Lemma callServiceA_result (ctx : Context) (now : Z) (dr : drawsA) (w : World) :
  fst (callServiceA ctx now dr w) = ServiceA ctx now dr.
Proof.
  unfold callServiceA. unfold_M. simpl.
  destruct (ServiceA ctx now dr) as [[d [e|]] t]; reflexivity.
Qed.

Lemma callServiceB_result (ctx : Context) (now : Z) (dr : drawsB) (w : World) :
  fst (callServiceB ctx now dr w) = ServiceB ctx now dr.
Proof.
  unfold callServiceB. unfold_M. simpl.
  destruct (ServiceB ctx now dr) as [[d [e|]] t]; reflexivity.
Qed.

Lemma callServiceA_world (ctx : Context) (now : Z) (dr : drawsA) (w : World) :
  calls (snd (callServiceA ctx now dr w)) = SvcA :: calls w ∧
  inflight (metrics (snd (callServiceA ctx now dr w))) = inflight (metrics w).
Proof.
  unfold callServiceA. unfold_M. simpl.
  destruct (ServiceA ctx now dr) as [[d [e|]] t]; done.
Qed.

Lemma callServiceB_world (ctx : Context) (now : Z) (dr : drawsB) (w : World) :
  calls (snd (callServiceB ctx now dr w)) = SvcB :: calls w ∧
  inflight (metrics (snd (callServiceB ctx now dr w))) = inflight (metrics w).
Proof.
  unfold callServiceB. unfold_M. simpl.
  destruct (ServiceB ctx now dr) as [[d [e|]] t]; done.
Qed.

(** ** The sequential strategy *)

(** C2: [Sync] calls service A first.  When A reports an error the handler
    answers at once with that error (status 408) and service B has not
    been called: the call log gained the call of A only.  When A succeeds,
    B is called once, from the instant A returned; the handler answers with
    B's error (status 503) when B reports one, and with both payloads
    (status 200) otherwise. *)
Theorem Sync_short_circuits (h : Handlers) (c : GinContext) (w : World) :
  let start := entered c in
  let ctx := RequestContext c in
  let '(a, errA, t1) := ServiceA ctx start (drawA c) in
  match errA with
  | Some e =>
      fst (Sync h c w)
      = Returned {| status := StatusRequestTimeout;
                    body := BodyError {| E_Mode := "sync";
                                         E_TotalMs := SinceMs start t1;
                                         E_Error := Error e |} |} t1
      ∧ calls (snd (Sync h c w)) = SvcA :: calls w
  | None =>
      let '(b, errB, t2) := ServiceB ctx t1 (drawB c) in
      calls (snd (Sync h c w)) = SvcB :: SvcA :: calls w ∧
      fst (Sync h c w)
      = match errB with
        | Some e =>
            Returned {| status := StatusServiceUnavailable;
                        body := BodyError {| E_Mode := "sync";
                                             E_TotalMs := SinceMs start t2;
                                             E_Error := Error e |} |} t2
        | None =>
            Returned {| status := StatusOK;
                        body := BodyCombined {| C_ServiceAData := a;
                                                C_ServiceBData := b;
                                                C_Mode := "sync";
                                                C_TotalMs := SinceMs start t2 |} |} t2
        end
  end.
Proof.
  intros start ctx. unfold Sync. fold start ctx.
  unfold mbind, M_bind, mret, M_ret.
  pose proof (callServiceA_result ctx start (drawA c) w) as HA.
  pose proof (callServiceA_world ctx start (drawA c) w) as [HcA _].
  destruct (callServiceA ctx start (drawA c) w) as [[[a' eA'] t1'] w1].
  simpl in HA, HcA. rewrite <- HA.
  destruct eA' as [e|]; [done|].
  pose proof (callServiceB_result ctx t1' (drawB c) w1) as HB.
  pose proof (callServiceB_world ctx t1' (drawB c) w1) as [HcB _].
  destruct (callServiceB ctx t1' (drawB c) w1) as [[[b' eB'] t2'] w2].
  simpl in HB, HcB. rewrite <- HB.
  destruct eB' as [e|]; simpl; rewrite HcB, HcA; done.
Qed.

(** ** The in-flight map *)

(** C10: for an endpoint without an entry, [DecInflight] leaves the whole
    map as it is, while [IncInflight] stores a cell holding zero and adds
    one to it: the entry is created with value one. *)
Theorem inflight_absent_entry (m : gmap string Z) (ep : string) :
  m !! ep = None →
  DecInflight ep m = m ∧
  LoadOrStore ep 0 m = (<[ep := 0]> m, 0, false) ∧
  IncInflight ep m = <[ep := 1]> m.
Proof.
  intros Hnone. unfold DecInflight, IncInflight, LoadOrStore, cell_Add.
  rewrite Hnone. split; [done|]. split; [done|].
  by rewrite alter_insert_eq.
Qed.

Lemma inflight_absent_entry_witness :
  (∅ : gmap string Z) !! "sync" = None ∧
  DecInflight "sync" ∅ = ∅ ∧
  IncInflight "sync" ∅ = <["sync" := 1]> ∅.
Proof.
  split; [apply lookup_empty|].
  destruct (inflight_absent_entry ∅ "sync" (lookup_empty "sync")) as (H1 & _ & H3).
  split; [exact H1 | exact H3].
Defined.

(** ** The fan-in loop *)

Lemma pick_ready (prio : list scase) (ready : scase → bool) (c : scase) :
  pick prio ready = Some c → ready c = true.
Proof. unfold pick. intros H. by apply find_some in H as [_ ?]. Qed.

Lemma pick_some (prio : list scase) (ready : scase → bool) (c0 : scase) :
  ready c0 = true → ∃ c, pick prio ready = Some c.
Proof.
  intros H. unfold pick.
  destruct (find ready _) as [c|] eqn:E; [eauto|].
  pose proof (find_none _ _ E c0) as Hn.
  rewrite Hn in H; [done|]. apply in_or_app. right.
  destruct c0; simpl; auto.
Qed.

Lemma leb_opt_true (o : option Z) (t : Z) :
  leb_opt o t = true ↔ ∃ x, o = Some x ∧ x <= t.
Proof.
  unfold leb_opt. destruct o as [x|].
  - rewrite Z.leb_le. naive_solver.
  - naive_solver.
Qed.

Lemma leb_opt_false (o : option Z) (t : Z) :
  leb_opt o t = false ↔ ∀ x, o = Some x → t < x.
Proof.
  unfold leb_opt. destruct o as [x|].
  - rewrite Z.leb_gt. naive_solver.
  - naive_solver.
Qed.

Lemma omin3_spec (a b d : option Z) (t : Z) :
  omin (omin a b) d = Some t →
  (a = Some t ∨ b = Some t ∨ d = Some t) ∧
  (∀ x, a = Some x → t <= x) ∧ (∀ x, b = Some x → t <= x) ∧
  (∀ x, d = Some x → t <= x).
Proof.
  destruct a as [a|], b as [b|], d as [d|]; simpl; intros [= <-];
    (split; [|repeat split; intros x [= <-]; lia]).
  - destruct (Z.min_spec a b) as [[? Hm]|[? Hm]];
      destruct (Z.min_spec (Z.min a b) d) as [[? Hn]|[? Hn]];
      rewrite Hn, ?Hm; auto.
  - destruct (Z.min_spec a b) as [[? Hm]|[? Hm]]; rewrite Hm; auto.
  - destruct (Z.min_spec a d) as [[? Hm]|[? Hm]]; rewrite Hm; auto.
  - auto.
  - destruct (Z.min_spec b d) as [[? Hm]|[? Hm]]; rewrite Hm; auto.
  - auto.
  - auto.
Qed.

Lemma omin3_none (a b d : option Z) :
  omin (omin a b) d = None → a = None ∧ b = None ∧ d = None.
Proof. destruct a, b, d; simpl; naive_solver. Qed.

(** What [selectAt] returns: the entry instant when a case is ready there,
    the first later event otherwise. *)
Lemma selectAt_polled (now : Z) (tA tB tD : option Z) (t : Z) :
  selectAt now tA tB tD = Some (t, false) →
  t = now ∧ (leb_opt tA now = true ∨ leb_opt tB now = true ∨ leb_opt tD now = true).
Proof.
  unfold selectAt.
  destruct (leb_opt tA now) eqn:EA, (leb_opt tB now) eqn:EB,
    (leb_opt tD now) eqn:ED; simpl; try (intros [= <-]; auto; fail).
  destruct (omin _ _); simpl; intros; simplify_eq.
Qed.

Lemma selectAt_parked (now : Z) (tA tB tD : option Z) (t : Z) :
  selectAt now tA tB tD = Some (t, true) →
  now < t ∧
  (tA = Some t ∨ tB = Some t ∨ tD = Some t) ∧
  leb_opt tA now = false ∧ leb_opt tB now = false ∧ leb_opt tD now = false ∧
  (∀ x, tA = Some x → t <= x) ∧ (∀ x, tB = Some x → t <= x) ∧
  (∀ x, tD = Some x → t <= x).
Proof.
  unfold selectAt.
  destruct (leb_opt tA now) eqn:EA, (leb_opt tB now) eqn:EB,
    (leb_opt tD now) eqn:ED; simpl; try (intros; simplify_eq; fail).
  destruct (omin _ _) as [m|] eqn:Em; simpl; intros; simplify_eq.
  apply omin3_spec in Em as (Hone & HA & HB & HD).
  rewrite leb_opt_false in EA, EB, ED.
  split; [|naive_solver].
  destruct Hone as [?|[?|?]]; naive_solver.
Qed.

Lemma selectAt_none (now : Z) (tA tB tD : option Z) :
  selectAt now tA tB tD = None → tA = None ∧ tB = None ∧ tD = None.
Proof.
  unfold selectAt. destruct (_ || _); [done|].
  destruct (omin _ _) eqn:E; [done|]. intros _. by apply omin3_none.
Qed.

Lemma eventAt_Some {R} (got : bool) (arr : option (Z * R)) (x : Z) :
  eventAt got arr = Some x ↔ got = false ∧ ∃ r, arr = Some (x, r).
Proof.
  unfold eventAt. destruct got; [naive_solver|].
  destruct arr as [[y r]|]; simpl; naive_solver.
Qed.

(** Nothing the loop waits for happens between the entry of a [select] and
    the instant at which it proceeds. *)
Lemma quiet_before (v : loopVars) (arrA : option (Z * aRes))
    (arrB : option (Z * bRes)) (tD : option Z) (now t : Z) (parked : bool) :
  selectAt now (eventAt (gotA v) arrA) (eventAt (gotB v) arrB) tD = Some (t, parked) →
  gotA v && gotB v = false →
  now <= t ∧
  ∀ t', now <= t' < t → allBy v arrA arrB t' = false ∧ leb_opt tD t' = false.
Proof.
  intros Hsel G. destruct parked.
  - apply selectAt_parked in Hsel as (Hlt & _ & _ & _ & _ & HA & HB & HD).
    split; [lia|]. intros t' Ht'. split.
    + unfold allBy. apply andb_false_iff in G as [G|G]; rewrite G; simpl.
      * assert (leb_opt (fst <$> arrA) t' = false) as ->; [|done].
        apply leb_opt_false. intros x Hx.
        assert (t <= x); [|lia]. apply HA. apply eventAt_Some. split; [done|].
        destruct arrA as [[y r]|]; simplify_eq/=. eauto.
      * assert (leb_opt (fst <$> arrB) t' = false) as ->; [|by rewrite andb_false_r].
        apply leb_opt_false. intros x Hx.
        assert (t <= x); [|lia]. apply HB. apply eventAt_Some. split; [done|].
        destruct arrB as [[y r]|]; simplify_eq/=. eauto.
    + apply leb_opt_false. intros x Hx. specialize (HD x Hx). lia.
  - apply selectAt_polled in Hsel as [-> _]. split; [lia|]. intros t' Ht'. lia.
Qed.

(** At that instant some case of the [select] can run. *)
Lemma some_case_ready (arrA : option (Z * aRes)) (arrB : option (Z * bRes))
    (gA gB : bool) (tD : option Z) (now t : Z) (parked : bool) :
  selectAt now (eventAt gA arrA) (eventAt gB arrB) tD = Some (t, parked) →
  leb_opt (eventAt gA arrA) t
    && negb (lateFor parked tD t (arrA ≫= λ p, ar_e (snd p))) = true ∨
  leb_opt (eventAt gB arrB) t
    && negb (lateFor parked tD t (arrB ≫= λ p, br_e (snd p))) = true ∨
  leb_opt tD t = true.
Proof.
  intros Hsel. destruct parked.
  - apply selectAt_parked in Hsel as (_ & Hone & _).
    destruct (decide (tD = Some t)) as [HD|HD].
    { right; right. apply leb_opt_true. exists t. split; [done|lia]. }
    unfold lateFor. rewrite (bool_decide_eq_false_2 _ HD), !andb_false_r. simpl.
    rewrite !andb_true_r.
    destruct Hone as [H|[H|H]]; [left|right;left|done];
      apply leb_opt_true; exists t; (split; [done|lia]).
  - apply selectAt_polled in Hsel as [-> Hone].
    unfold lateFor. simpl. rewrite !andb_true_r. tauto.
Qed.

Lemma final_done (v : loopVars) (arrA : option (Z * aRes)) (arrB : option (Z * bRes)) :
  gotA v && gotB v = true → final v arrA arrB = v.
Proof.
  destruct v as [gA gB a b ea eb]. unfold final. simpl.
  intros [-> ->]%andb_true_iff. done.
Qed.

(** What one pass does when some case becomes ready some day: nothing
    awaited happens before the instant [t] at which it proceeds; it either
    receives one of the awaited results, sent by [t], or sees [Done]. *)
Lemma selectOnce_cases (ctx : Context) (arrA : option (Z * aRes))
    (arrB : option (Z * bRes)) (prio : list scase) (now : Z) (v : loopVars) :
  is_Some (doneAt ctx) ∨ (is_Some arrA ∧ is_Some arrB) →
  gotA v && gotB v = false →
  match selectOnce ctx arrA arrB prio now v with
  | Received t v' =>
      now <= t ∧
      (∀ t', now <= t' < t →
         allBy v arrA arrB t' = false ∧ leb_opt (doneAt ctx) t' = false) ∧
      S (pendings v') = pendings v ∧
      (∀ t', t <= t' → allBy v' arrA arrB t' = allBy v arrA arrB t') ∧
      final v' arrA arrB = final v arrA arrB
  | SawDone err t =>
      now <= t ∧
      (∀ t', now <= t' < t →
         allBy v arrA arrB t' = false ∧ leb_opt (doneAt ctx) t' = false) ∧
      ∃ tD e, ctxDone ctx = Some (tD, e) ∧ tD <= t ∧ err = Some (ErrCtx e)
  | ParkedForEver => False
  end.
Proof.
  intros Hlive G. unfold selectOnce.
  destruct (selectAt now (eventAt (gotA v) arrA) (eventAt (gotB v) arrB)
              (doneAt ctx)) as [[t parked]|] eqn:Hsel.
  2:{ apply selectAt_none in Hsel as (HA & HB & HD).
      destruct Hlive as [[x Hx]|[[a Ha] [b Hb]]]; [congruence|].
      subst arrA arrB. unfold eventAt in HA, HB.
      destruct (gotA v), (gotB v), a, b; simplify_eq/=. }
  pose proof (quiet_before _ _ _ _ _ _ _ Hsel G) as [Hnow Hquiet].
  pose proof (some_case_ready _ _ _ _ _ _ _ _ Hsel) as Hready.
  match goal with |- context [pick _ ?r] => set (ready := r) end.
  assert (∃ c, pick prio ready = Some c) as [c Hc].
  { destruct Hready as [H|[H|H]];
      [apply (pick_some _ _ CaseA)|apply (pick_some _ _ CaseB)
      |apply (pick_some _ _ CaseDone)]; exact H. }
  rewrite Hc. pose proof (pick_ready _ _ _ Hc) as Hrc.
  destruct c; simpl in Hrc.
  - apply andb_true_iff in Hrc as [Hrc _].
    apply leb_opt_true in Hrc as (x & Hx & Hxt).
    apply eventAt_Some in Hx as [HgA [ar ->]].
    split; [done|]. split; [done|]. split.
    { unfold pendings. simpl. by rewrite HgA. }
    split.
    + intros t' Ht'. unfold allBy. simpl. rewrite HgA. simpl.
      destruct (Z.leb_spec x t'); [done|lia].
    + unfold final. simpl. by rewrite HgA.
  - apply andb_true_iff in Hrc as [Hrc _].
    apply leb_opt_true in Hrc as (x & Hx & Hxt).
    apply eventAt_Some in Hx as [HgB [br ->]].
    assert (now <= t ∧
            (∀ t', now <= t' < t →
               allBy v arrA (Some (x, br)) t' = false ∧
               leb_opt (doneAt ctx) t' = false) ∧
            S (pendings {| gotA := gotA v; gotB := true; va := va v; vb := br_d br;
                           eA := eA v; eB := br_e br |}) = pendings v ∧
            (∀ t', t <= t' →
               allBy {| gotA := gotA v; gotB := true; va := va v; vb := br_d br;
                        eA := eA v; eB := br_e br |} arrA (Some (x, br)) t'
               = allBy v arrA (Some (x, br)) t') ∧
            final {| gotA := gotA v; gotB := true; va := va v; vb := br_d br;
                     eA := eA v; eB := br_e br |} arrA (Some (x, br))
            = final v arrA (Some (x, br))) as Hgoal.
    { split; [done|]. split; [done|]. split.
      { unfold pendings. simpl. rewrite HgB. destruct (gotA v); simpl; lia. }
      split.
      + intros t' Ht'. unfold allBy. simpl. rewrite HgB. simpl.
        destruct (Z.leb_spec x t'); [done|lia].
      + unfold final. simpl. by rewrite HgB. }
    destruct arrA as [[? ?]|]; exact Hgoal.
  - apply leb_opt_true in Hrc as (x & Hx & Hxt).
    assert (∃ e, ctxDone ctx = Some (x, e)) as [e HD].
    { unfold doneAt in Hx. destruct (ctxDone ctx) as [[tD e]|]; simplify_eq/=. eauto. }
    assert (now <= t ∧
            (∀ t', now <= t' < t →
               allBy v arrA arrB t' = false ∧ leb_opt (doneAt ctx) t' = false) ∧
            ∃ tD e0, ctxDone ctx = Some (tD, e0) ∧ tD <= t ∧
                     Err ctx t = Some (ErrCtx e0)) as Hgoal.
    { split; [done|]. split; [done|]. exists x, e.
      split; [done|]. split; [done|]. by apply (Err_at_done ctx x). }
    destruct arrA as [[? ?]|], arrB as [[? ?]|]; exact Hgoal.
Qed.


(** The loop, entered at [now] with [v]: when the context has a [Done]
    instant, or both results are sent some day, the loop ends, within the
    fuel of one iteration per awaited result, at the first instant [T]
    from [now] on at which both results have been sent or [Done] is closed;
    it ends with both results, or with the context's error. *)
Lemma fanIn_spec (ctx : Context) (arrA : option (Z * aRes)) (arrB : option (Z * bRes)) :
  is_Some (doneAt ctx) ∨ (is_Some arrA ∧ is_Some arrB) →
  ∀ (fuel : nat) (sel : list (list scase)) (now : Z) (v : loopVars),
    (pendings v ≤ fuel)%nat →
    ∃ res T,
      fanIn fuel ctx arrA arrB sel now v = Ret (res, T) ∧ now <= T ∧
      (∀ t, now <= t < T →
         allBy v arrA arrB t = false ∧ leb_opt (doneAt ctx) t = false) ∧
      ((res = BothArrived (final v arrA arrB) ∧ allBy v arrA arrB T = true) ∨
       (∃ tD e, ctxDone ctx = Some (tD, e) ∧ tD <= T ∧
                res = DoneFired (Some (ErrCtx e)))).
Proof.
  intros Hlive fuel. induction fuel as [|fuel IH]; intros sel now v Hfuel.
  - exists (BothArrived v), now.
    assert (gotA v && gotB v = true) as G.
    { unfold pendings in Hfuel. destruct (gotA v), (gotB v); simpl in *; lia. }
    simpl. rewrite G. split; [done|]. split; [lia|]. split; [lia|].
    left. rewrite final_done by done. split; [done|].
    unfold allBy. apply andb_true_iff in G as [-> ->]. done.
  - destruct (gotA v && gotB v) eqn:G.
    { exists (BothArrived v), now. simpl. rewrite G.
      split; [done|]. split; [lia|]. split; [lia|].
      left. rewrite final_done by done. split; [done|].
      unfold allBy. apply andb_true_iff in G as [-> ->]. done. }
    simpl. rewrite G.
    pose proof (selectOnce_cases ctx arrA arrB (hd [] sel) now v Hlive G) as Hpass.
    destruct (selectOnce ctx arrA arrB (hd [] sel) now v) as [t v'|err t|]; [| |done].
    + destruct Hpass as (Hnow & Hquiet & Hpend & Hsame & Hfin).
      destruct (IH (tl sel) t v') as (res & T & Hrun & HtT & Hmin & Hres); [lia|].
      exists res, T. split; [exact Hrun|]. split; [lia|]. split.
      * intros t' Ht'. destruct (Z.lt_ge_cases t' t) as [Hlt|Hge].
        -- apply Hquiet. lia.
        -- rewrite <- Hsame by lia. apply Hmin. lia.
      * rewrite <- Hfin, <- Hsame by lia. exact Hres.
    + destruct Hpass as (Hnow & Hquiet & tD & e & HD & HtD & ->).
      exists (DoneFired (Some (ErrCtx e))), t.
      split; [done|]. split; [done|]. split; [done|]. right. eauto.
Qed.

(** ** The concurrent handlers *)

Lemma goA_result (ctx : Context) (start : Z) (dr : drawsA) (w : World) :
  fst (goA ctx start dr w)
  = Some ((ServiceA ctx start dr).2,
          {| ar_d := (ServiceA ctx start dr).1.1; ar_e := (ServiceA ctx start dr).1.2 |}).
Proof.
  unfold goA. unfold mbind, M_bind, mret, M_ret.
  pose proof (callServiceA_result ctx start dr w) as H.
  destruct (callServiceA ctx start dr w) as [[[d e] t] w1]. simpl in H.
  by rewrite <- H.
Qed.

Lemma goB_result (ctx : Context) (start : Z) (dr : drawsB) (w : World) :
  fst (goB ctx start dr w)
  = Some ((ServiceB ctx start dr).2,
          {| br_d := (ServiceB ctx start dr).1.1; br_e := (ServiceB ctx start dr).1.2 |}).
Proof.
  unfold goB. unfold mbind, M_bind, mret, M_ret.
  pose proof (callServiceB_result ctx start dr w) as H.
  destruct (callServiceB ctx start dr w) as [[[d e] t] w1]. simpl in H.
  by rewrite <- H.
Qed.

(** The instants and values the goroutines produce do not depend on the
    metrics recorded so far. *)
Lemma goA_any_world (ctx : Context) (start : Z) (dr : drawsA) (w w' : World) :
  fst (goA ctx start dr w) = fst (goA ctx start dr w').
Proof. by rewrite !goA_result. Qed.

Lemma goB_any_world (ctx : Context) (start : Z) (dr : drawsB) (w w' : World) :
  fst (goB ctx start dr w) = fst (goB ctx start dr w').
Proof. by rewrite !goB_result. Qed.

Lemma goB_limited_any_world (ctx : Context) (start : Z) (free : option Z)
    (tie : bool) (dr : drawsB) (w w' : World) :
  fst (goB_limited ctx start free tie dr w) = fst (goB_limited ctx start free tie dr w').
Proof.
  assert (∀ s,
    fst ((record_SemWaitB (SinceMs start s) ;;
          '(d, e, t) ← callServiceB ctx s dr;
          mret {| sentB := Some (t, {| br_d := d; br_e := e |}); held := Some (s, t) |}) w)
    = fst ((record_SemWaitB (SinceMs start s) ;;
          '(d, e, t) ← callServiceB ctx s dr;
          mret {| sentB := Some (t, {| br_d := d; br_e := e |}); held := Some (s, t) |}) w'))
    as Hacq.
  { intros s. unfold mbind, M_bind, mret, M_ret, record_SemWaitB.
    set (w1 := {| metrics := _; calls := calls w |}).
    set (w1' := {| metrics := _; calls := calls w' |}).
    pose proof (callServiceB_result ctx s dr w1) as H.
    pose proof (callServiceB_result ctx s dr w1') as H'.
    destruct (callServiceB ctx s dr w1) as [[[d e] t] w2].
    destruct (callServiceB ctx s dr w1') as [[[d' e'] t'] w2'].
    simpl in *. congruence. }
  unfold goB_limited.
  destruct (Z.max start <$> free) as [s|], (Z.max start <$> doneAt ctx) as [t|];
    try done; repeat case_match; done.
Qed.

(** Each concurrent handler is the common merge applied to the context it
    shares with its goroutines and to what they send. *)
Lemma handler_merges (s : strategy) (h : Handlers) (c : GinContext) (w : World) :
  fst (handlerOf s h c w)
  = mergeAndRespond (modeOf s) (sharedContext s h c) (entered c)
      (taskA s h c w) (taskB s h c w) (selPrio c).
Proof.
  destruct s; unfold handlerOf, taskA, taskB, modeOf, sharedContext;
    [unfold Async|unfold AsyncLimited|unfold AsyncTimeout];
    unfold mbind, M_bind, mret, M_ret.
  - destruct (goA _ _ _ w) as [arrA w1] eqn:EA.
    rewrite (goB_any_world _ _ _ w w1).
    by destruct (goB _ _ _ w1) as [arrB w2].
  - destruct (goA _ _ _ w) as [arrA w1] eqn:EA.
    rewrite (goB_limited_any_world _ _ _ _ _ w w1).
    by destruct (goB_limited _ _ _ _ _ w1) as [lb w2].
  - destruct (goA _ _ _ w) as [arrA w1] eqn:EA.
    rewrite (goB_any_world _ _ _ w w1).
    by destruct (goB _ _ _ w1) as [arrB w2].
Qed.



(** The merge when the loop ends with both results. *)
Lemma merge_both (mode : string) (ctx : Context) (start T : Z)
    (tA tB : Z) (ra : aRes) (rb : bRes) (sel : list (list scase)) :
  fanIn fanInFuel ctx (Some (tA, ra)) (Some (tB, rb)) sel start loopInit
  = Ret (BothArrived (final loopInit (Some (tA, ra)) (Some (tB, rb))), T) →
  mergeAndRespond mode ctx start (Some (tA, ra)) (Some (tB, rb)) sel
  = if bool_decide (ar_e ra ≠ None ∨ br_e rb ≠ None)
    then Returned {| status := StatusServiceUnavailable;
                     body := BodyError {| E_Mode := mode;
                                          E_TotalMs := SinceMs start T;
                                          E_Error := Error (ErrBoth (ar_e ra) (br_e rb)) |} |} T
    else Returned {| status := StatusOK;
                     body := BodyCombined {| C_ServiceAData := ar_d ra;
                                             C_ServiceBData := br_d rb;
                                             C_Mode := mode;
                                             C_TotalMs := SinceMs start T |} |} T.
Proof. intros H. unfold mergeAndRespond. rewrite H. simpl. done. Qed.

Lemma select_after (ctx : Context) (now d : Z) (tie : bool) :
  0 <= d → now <= (select_timer_ctx ctx now d tie).2.
Proof.
  intros Hd. unfold select_timer_ctx.
  destruct (doneAt ctx) as [t|]; simpl; [|lia].
  repeat case_match; simpl; lia.
Qed.

Lemma ServiceA_returns_after (ctx : Context) (now : Z) (dr : drawsA) :
  Intn_ok 101 (a_intn dr) → now <= (ServiceA ctx now dr).2.
Proof.
  intros Hr. unfold ServiceA.
  destruct (sleepA_duration _ Hr) as [Hms Hd].
  pose proof (select_after ctx now (Duration_of_ms (randRange 50 150 (a_intn dr)))
                (a_tie dr)) as H.
  destruct (select_timer_ctx _ _ _ _) as [[] t]; simpl in *;
    apply H; rewrite Hd; unfold Millisecond; lia.
Qed.

Lemma ServiceB_returns_after (ctx : Context) (now : Z) (dr : drawsB) :
  Intn_ok 901 (b_intn dr) → now <= (ServiceB ctx now dr).2.
Proof.
  intros Hr. unfold ServiceB.
  destruct (Qltb _ _); [simpl; lia|].
  destruct (sleepB_duration _ Hr) as [Hms Hd].
  pose proof (select_after ctx now (Duration_of_ms (randRange 300 1200 (b_intn dr)))
                (b_tie dr)) as H.
  destruct (select_timer_ctx _ _ _ _) as [[] t]; simpl in *;
    apply H; rewrite Hd; unfold Millisecond; lia.
Qed.

(** The three ways the guarded goroutine can go: it never gets past its
    [select]; it takes a token at [s], runs service B from [s] and gives the
    token back when B has returned; or it sees [Done] at [t] and sends the
    context's error without having touched the semaphore. *)
Lemma goB_limited_cases (ctx : Context) (start : Z) (free : option Z)
    (tie : bool) (dr : drawsB) (w : World) :
  let lb := fst (goB_limited ctx start free tie dr w) in
  (free = None ∧ doneAt ctx = None ∧ sentB lb = None ∧ held lb = None) ∨
  (∃ s, Z.max start <$> free = Some s ∧
        (∀ t, Z.max start <$> doneAt ctx = Some t → s <= t) ∧
        sentB lb = Some ((ServiceB ctx s dr).2,
                         {| br_d := (ServiceB ctx s dr).1.1;
                            br_e := (ServiceB ctx s dr).1.2 |}) ∧
        held lb = Some (s, (ServiceB ctx s dr).2)) ∨
  (∃ t, Z.max start <$> doneAt ctx = Some t ∧
        (∀ s, Z.max start <$> free = Some s → t <= s) ∧
        sentB lb = Some (t, {| br_d := zeroB; br_e := Err ctx t |}) ∧
        held lb = None).
Proof.
  assert (∀ s w,
    fst ((record_SemWaitB (SinceMs start s) ;;
          '(d, e, t) ← callServiceB ctx s dr;
          mret {| sentB := Some (t, {| br_d := d; br_e := e |}); held := Some (s, t) |}) w)
    = {| sentB := Some ((ServiceB ctx s dr).2,
                        {| br_d := (ServiceB ctx s dr).1.1;
                           br_e := (ServiceB ctx s dr).1.2 |});
         held := Some (s, (ServiceB ctx s dr).2) |}) as Hacq.
  { intros s w0. unfold mbind, M_bind, mret, M_ret, record_SemWaitB.
    set (w1 := {| metrics := _; calls := calls w0 |}).
    pose proof (callServiceB_result ctx s dr w1) as H.
    destruct (callServiceB ctx s dr w1) as [[[d e] t] w2].
    simpl in *. by rewrite <- H. }
  intros lb. subst lb. unfold goB_limited.
  destruct free as [f|], (doneAt ctx) as [tc|]; simpl.
  - destruct (Z.ltb_spec (Z.max start f) (Z.max start tc)).
    { right; left. exists (Z.max start f). rewrite Hacq. simpl.
      repeat split; try done. intros t [= <-]. lia. }
    destruct (Z.ltb_spec (Z.max start tc) (Z.max start f)).
    { right; right. exists (Z.max start tc). simpl.
      repeat split; try done. intros s [= <-]. lia. }
    destruct tie.
    + right; left. exists (Z.max start f). rewrite Hacq. simpl.
      repeat split; try done. intros t [= <-]. lia.
    + right; right. exists (Z.max start tc). simpl.
      repeat split; try done. intros s [= <-]. lia.
  - right; left. exists (Z.max start f). rewrite Hacq. simpl.
    repeat split; try done.
  - right; right. exists (Z.max start tc). simpl. repeat split; done.
  - left. done.
Qed.

Lemma taskA_sent (s : strategy) (h : Handlers) (c : GinContext) (w : World) :
  Intn_ok 101 (a_intn (drawA c)) →
  ∃ t r, taskA s h c w = Some (t, r) ∧ entered c <= t.
Proof.
  intros Hr. unfold taskA. rewrite goA_result. eexists _, _. split; [done|].
  by apply ServiceA_returns_after.
Qed.

Lemma taskB_after (s : strategy) (h : Handlers) (c : GinContext) (w : World)
    (t : Z) (r : bRes) :
  Intn_ok 901 (b_intn (drawB c)) →
  taskB s h c w = Some (t, r) → entered c <= t.
Proof.
  intros Hr. unfold taskB.
  assert (fst (goB (sharedContext s h c) (entered c) (drawB c) w) = Some (t, r)
          → entered c <= t) as Hgo.
  { rewrite goB_result. intros [= <- <-]. by apply ServiceB_returns_after. }
  destruct s; try exact Hgo.
  pose proof (goB_limited_cases (sharedContext Bounded h c) (entered c)
                (gateFree c) (gateTie c) (drawB c) w) as Hc.
  cbv zeta in Hc. intros Hs. rewrite Hs in Hc.
  destruct Hc as [(_ & _ & ? & _)|[(s & Hfree & _ & Hsent & _)|(t' & Hd & _ & Hsent & _)]];
    simplify_eq.
  - pose proof (ServiceB_returns_after (sharedContext Bounded h c) s (drawB c) Hr).
    destruct (gateFree c); simplify_eq/=. lia.
  - destruct (doneAt _); simplify_eq/=. lia.
Qed.

(** C5: unbounded, bounded and timeout strategy, when both goroutines send
    their result before the shared context is done (draws being values
    [rand.Intn] can return).  The handler then answers at the later of the
    two sends: with status 503 and an error text made of both results'
    errors when either result carries an error, with status 200 and both
    payloads when neither does. *)
Theorem both_results_outcome (s : strategy) (h : Handlers) (c : GinContext)
    (w : World) (tA tB : Z) (ra : aRes) (rb : bRes) :
  Intn_ok 101 (a_intn (drawA c)) →
  Intn_ok 901 (b_intn (drawB c)) →
  taskA s h c w = Some (tA, ra) →
  taskB s h c w = Some (tB, rb) →
  (∀ tD, doneAt (sharedContext s h c) = Some tD → tA < tD ∧ tB < tD) →
  let T := Z.max tA tB in
  fst (handlerOf s h c w)
  = if bool_decide (ar_e ra ≠ None ∨ br_e rb ≠ None)
    then Returned {| status := StatusServiceUnavailable;
                     body := BodyError {| E_Mode := modeOf s;
                                          E_TotalMs := SinceMs (entered c) T;
                                          E_Error := Error (ErrBoth (ar_e ra) (br_e rb)) |} |} T
    else Returned {| status := StatusOK;
                     body := BodyCombined {| C_ServiceAData := ar_d ra;
                                             C_ServiceBData := br_d rb;
                                             C_Mode := modeOf s;
                                             C_TotalMs := SinceMs (entered c) T |} |} T.
Proof.
  intros HrA HrB HA HB Hbefore T.
  rewrite handler_merges, HA, HB. apply merge_both.
  destruct (taskA_sent s h c w HrA) as (tA' & ra' & HA' & HsA).
  rewrite HA in HA'. injection HA' as <- <-.
  pose proof (taskB_after s h c w tB rb HrB HB) as HsB.
  destruct (fanIn_spec (sharedContext s h c) (Some (tA, ra)) (Some (tB, rb))
              (or_intror (conj (mk_is_Some _ _ eq_refl) (mk_is_Some _ _ eq_refl)))
              fanInFuel (selPrio c) (entered c) loopInit)
    as (res & T' & Hrun & Hle & Hmin & Hres); [vm_compute; lia|].
  assert (allBy loopInit (Some (tA, ra)) (Some (tB, rb)) T = true) as HallT.
  { unfold allBy, T. simpl.
    destruct (Z.leb_spec tA (Z.max tA tB)); [|lia].
    destruct (Z.leb_spec tB (Z.max tA tB)); [done|lia]. }
  assert (T' <= T) as HT'.
  { destruct (Z.le_gt_cases T' T) as [?|Hgt]; [done|].
    destruct (Hmin T) as [Hf _]; [unfold T in *; lia|]. congruence. }
  rewrite Hrun. destruct Hres as [[-> Hall]|(tD & e & HD & HtD & ->)].
  - unfold allBy in Hall. simpl in Hall.
    apply andb_true_iff in Hall as [H1 H2].
    apply Z.leb_le in H1, H2. do 3 f_equal. unfold T in *. lia.
  - exfalso. destruct (Hbefore tD); [unfold doneAt; by rewrite HD|].
    unfold T in *. lia.
Qed.

Lemma both_results_outcome_witness :
  ∃ o, fst (handlerOf Bounded
              (New {| chan_cap := 20; chan_len := 0 |} 600)
              {| RequestContext := Background; entered := 0;
                 drawA := {| a_intn := 50; a_tie := true |};
                 drawB := {| b_float := 1 # 2; b_intn := 700; b_tie := true |};
                 selPrio := []; gateFree := Some 0; gateTie := true |}
              {| metrics := NewMetrics; calls := [] |}) = o ∧
       ∃ r, o = Returned r (1000 * Millisecond) ∧ status r = StatusOK.
Proof.
  eexists. split.
  - eapply (both_results_outcome Bounded _ _ _ (100 * Millisecond) (1000 * Millisecond)
              {| ar_d := {| A_Value := "data-from-A"; A_SleepMs := 100 |}; ar_e := None |}
              {| br_d := {| B_Value := "data-from-B"; B_SleepMs := 1000 |}; br_e := None |}).
    + by vm_compute.
    + by vm_compute.
    + reflexivity.
    + reflexivity.
    + intros tD H. by vm_compute in H.
  - eexists. split; reflexivity.
Defined.




(** ** Configuration and the timeout strategy *)

Lemma getEnvInt_spec (env : gmap string string) (key : string) (def : Z) :
  getEnvInt env key def = default def (env !! key ≫= Atoi).
Proof.
  unfold getEnvInt, Getenv. destruct (env !! key) as [v|]; simpl; [|done].
  case_decide as Hv; [by subst v|]. by destruct (Atoi v).
Qed.




(** ** Counting over the goroutines of a system *)

Section total.
Context {A : Type} (f : A → Z).

Lemma total_cons (x : A) (l : list A) : total f (x :: l) = f x + total f l.
Proof. reflexivity. Qed.

Lemma total_insert (l : list A) (i : nat) (x y : A) :
  l !! i = Some x → total f (<[i := y]> l) = total f l - f x + f y.
Proof.
  unfold total.
  revert i. induction l as [|z l IH]; intros [|i] Hi; simplify_eq/=.
  - lia.
  - rewrite (IH i Hi). lia.
Qed.

Lemma total_zero (l : list A) : Forall (λ x, f x = 0) l → total f l = 0.
Proof.
  induction 1 as [|x l Hx _ IH]; [done|]. rewrite total_cons, Hx, IH. done.
Qed.

Hypothesis unit_weight : ∀ x, 0 <= f x <= 1.

Lemma total_bounds (l : list A) : 0 <= total f l <= Z.of_nat (length l).
Proof.
  induction l as [|x l IH]; [simpl; lia|].
  rewrite total_cons, length_cons. specialize (unit_weight x). lia.
Qed.

Lemma total_lookup (l : list A) (i : nat) (x : A) :
  l !! i = Some x → f x <= total f l.
Proof.
  revert i. induction l as [|z l IH]; intros [|i] Hi; simplify_eq/=.
  - pose proof (total_bounds l). unfold total in *. lia.
  - specialize (IH i Hi). specialize (unit_weight z). unfold total in *. lia.
Qed.
End total.

(** ** The in-flight counters *)

Lemma inflight_value_Inc (ep ep' : string) (m : gmap string Z) :
  inflight_value ep' (IncInflight ep m)
  = if decide (ep' = ep) then wrap64 (inflight_value ep m + 1)
    else inflight_value ep' m.
Proof.
  unfold inflight_value, IncInflight, LoadOrStore, cell_Add.
  destruct (m !! ep) as [v|] eqn:Hm; case_decide as Hep; subst.
  - by rewrite lookup_alter_eq, Hm.
  - by rewrite lookup_alter_ne.
  - by rewrite alter_insert_eq, lookup_insert_eq.
  - by rewrite alter_insert_eq, lookup_insert_ne.
Qed.

Lemma inflight_value_Dec (ep ep' : string) (m : gmap string Z) :
  inflight_value ep' (DecInflight ep m)
  = if decide (ep' = ep)
    then (if m !! ep is Some v then wrap64 (v + -1) else 0)
    else inflight_value ep' m.
Proof.
  unfold inflight_value, DecInflight, cell_Add.
  destruct (m !! ep) as [v|] eqn:Hm; case_decide as Hep; subst.
  - by rewrite lookup_alter_eq, Hm.
  - by rewrite lookup_alter_ne.
  - by rewrite Hm.
  - done.
Qed.

(** One request from entry to exit: the map is back where it was, except
    that the endpoint now has an entry. *)
Lemma Inc_then_Dec (ep : string) (m : gmap string Z) :
  min_int64 <= inflight_value ep m <= max_int64 →
  DecInflight ep (IncInflight ep m) = <[ep := inflight_value ep m]> m.
Proof.
  intros Hv. unfold inflight_value in *.
  unfold DecInflight, IncInflight, LoadOrStore, cell_Add.
  destruct (m !! ep) as [v|] eqn:Hm; simpl in *.
  - rewrite lookup_alter_eq, Hm. simpl.
    apply map_eq. intros k. destruct (decide (k = ep)) as [->|Hk].
    + rewrite !lookup_alter_eq, Hm, lookup_insert_eq. simpl.
      by rewrite wrap64_inc_dec.
    + by rewrite !lookup_alter_ne, lookup_insert_ne.
  - rewrite alter_insert_eq, lookup_insert_eq, alter_insert_eq. done.
Qed.

Lemma inside_unit (ep : string) (r : invocation) : 0 <= inside ep r <= 1.
Proof. unfold inside. case_bool_decide; lia. Qed.

Lemma inside_stage (ep : string) (r : invocation) :
  inside ep r
  = if decide (ep = endpoint r)
    then (if decide (stage r = InHandler) then 1 else 0)
    else 0.
Proof.
  unfold inside. repeat case_decide; case_bool_decide; naive_solver.
Qed.

(** One step of the interleaved server keeps every counter equal to the
    number of requests of its endpoint that are inside their handler. *)
Lemma server_step_invariant (ia : nat * iaction) (s s1 : server) :
  Z.of_nat (length (requests s)) <= max_int64 →
  (∀ ep, inflight_value ep (gauges s) = inHandler ep s) →
  server_step ia s = Some s1 →
  length (requests s1) = length (requests s) ∧
  ∀ ep, inflight_value ep (gauges s1) = inHandler ep s1.
Proof.
  destruct ia as [i a]. intros Hlen Hinv Hstep.
  unfold server_step in Hstep. simpl in Hstep.
  destruct (requests s !! i) as [r|] eqn:Hr; [|done]. simpl in Hstep.
  destruct (inv_step a (gauges s) r) as [[m' r']|] eqn:Hi; [|done].
  simpl in Hstep. injection Hstep as <-. simpl.
  split; [by rewrite length_insert|].
  intros ep. unfold inHandler. simpl.
  rewrite (total_insert _ _ _ r r' Hr). fold (inHandler ep s).
  unfold inv_step in Hi. destruct a, (stage r) eqn:Hst; simplify_eq/=.
  - (* Enter *)
    rewrite inflight_value_Inc, !inside_stage, Hst. simpl.
    destruct (decide (ep = endpoint r)) as [->|Hep]; rewrite Hinv; [|lia].
    pose proof (total_bounds (inside (endpoint r)) (inside_unit (endpoint r))
                  (<[i := {| endpoint := endpoint r; stage := InHandler |}]> (requests s)))
      as Hb.
    rewrite length_insert, (total_insert _ _ _ r _ Hr), !inside_stage, Hst in Hb.
    simpl in Hb. rewrite !decide_True in Hb by done. simpl in Hb.
    fold (inHandler (endpoint r) s) in Hb.
    rewrite wrap64_small; [lia|]. unfold min_int64. lia.
  - (* Leave *)
    rewrite inflight_value_Dec, !inside_stage, Hst. simpl.
    destruct (decide (ep = endpoint r)) as [->|Hep]; [|rewrite Hinv; lia].
    pose proof (total_lookup (inside (endpoint r)) (inside_unit (endpoint r))
                  _ _ _ Hr) as Hin.
    pose proof (total_bounds (inside (endpoint r)) (inside_unit (endpoint r))
                  (requests s)) as Hb.
    rewrite inside_stage, Hst, decide_True in Hin by done. simpl in Hin.
    fold (inHandler (endpoint r) s) in Hin, Hb.
    specialize (Hinv (endpoint r)). unfold inflight_value in Hinv.
    destruct (gauges s !! endpoint r) as [v|]; simpl in Hinv; [|lia].
    rewrite wrap64_small; [lia|]. unfold min_int64. lia.
Qed.

Lemma serve_invariant (sched : list (nat * iaction)) (s s' : server) :
  Z.of_nat (length (requests s)) <= max_int64 →
  (∀ ep, inflight_value ep (gauges s) = inHandler ep s) →
  serve sched s = Some s' →
  length (requests s') = length (requests s) ∧
  ∀ ep, inflight_value ep (gauges s') = inHandler ep s'.
Proof.
  revert s. induction sched as [|ia sched IH]; intros s Hlen Hinv Hrun.
  - by simplify_eq/=.
  - simpl in Hrun. destruct (server_step ia s) as [s1|] eqn:Hstep; [|done].
    simpl in Hrun.
    destruct (server_step_invariant ia s s1 Hlen Hinv Hstep) as [Hlen1 Hinv1].
    destruct (IH s1) as [Hl Hi]; [lia|done|done|].
    split; [lia|done].
Qed.

(** The handlers leave the in-flight map alone. *)
Lemma goA_frame (ctx : Context) (start : Z) (dr : drawsA) (w : World) :
  inflight (metrics (snd (goA ctx start dr w))) = inflight (metrics w).
Proof.
  unfold goA, mbind, M_bind, mret, M_ret.
  pose proof (callServiceA_world ctx start dr w) as [_ H].
  by destruct (callServiceA ctx start dr w) as [[[d e] t] w1].
Qed.

Lemma goB_frame (ctx : Context) (start : Z) (dr : drawsB) (w : World) :
  inflight (metrics (snd (goB ctx start dr w))) = inflight (metrics w).
Proof.
  unfold goB, mbind, M_bind, mret, M_ret.
  pose proof (callServiceB_world ctx start dr w) as [_ H].
  by destruct (callServiceB ctx start dr w) as [[[d e] t] w1].
Qed.

Lemma goB_limited_frame (ctx : Context) (start : Z) (free : option Z)
    (tie : bool) (dr : drawsB) (w : World) :
  inflight (metrics (snd (goB_limited ctx start free tie dr w))) = inflight (metrics w).
Proof.
  assert (∀ s,
    inflight (metrics (snd ((record_SemWaitB (SinceMs start s) ;;
          '(d, e, t) ← callServiceB ctx s dr;
          mret {| sentB := Some (t, {| br_d := d; br_e := e |}); held := Some (s, t) |}) w)))
    = inflight (metrics w)) as Hacq.
  { intros s. unfold mbind, M_bind, mret, M_ret, record_SemWaitB.
    set (w1 := {| metrics := _; calls := calls w |}).
    pose proof (callServiceB_world ctx s dr w1) as [_ H].
    by destruct (callServiceB ctx s dr w1) as [[[d e] t] w2]. }
  unfold goB_limited.
  destruct (Z.max start <$> free) as [s|], (Z.max start <$> doneAt ctx) as [t|];
    try done; repeat case_match; done.
Qed.

Lemma Sync_frame (h : Handlers) (c : GinContext) (w : World) :
  inflight (metrics (snd (Sync h c w))) = inflight (metrics w).
Proof.
  unfold Sync, mbind, M_bind, mret, M_ret.
  pose proof (callServiceA_world (RequestContext c) (entered c) (drawA c) w) as [_ HA].
  destruct (callServiceA _ _ _ w) as [[[a [e|]] t1] w1]; [done|].
  pose proof (callServiceB_world (RequestContext c) t1 (drawB c) w1) as [_ HB].
  destruct (callServiceB _ _ _ w1) as [[[b [e|]] t2] w2]; simpl in *; congruence.
Qed.

Lemma concurrent_frame (s : strategy) (h : Handlers) (c : GinContext) (w : World) :
  inflight (metrics (snd (handlerOf s h c w))) = inflight (metrics w).
Proof.
  destruct s; unfold handlerOf;
    [unfold Async|unfold AsyncLimited|unfold AsyncTimeout];
    unfold mbind, M_bind, mret, M_ret.
  - pose proof (goA_frame (RequestContext c) (entered c) (drawA c) w) as HA.
    destruct (goA _ _ _ w) as [arrA w1].
    pose proof (goB_frame (RequestContext c) (entered c) (drawB c) w1) as HB.
    destruct (goB _ _ _ w1) as [arrB w2]. simpl in *. congruence.
  - pose proof (goA_frame (RequestContext c) (entered c) (drawA c) w) as HA.
    destruct (goA _ _ _ w) as [arrA w1].
    pose proof (goB_limited_frame (RequestContext c) (entered c) (gateFree c)
                  (gateTie c) (drawB c) w1) as HB.
    destruct (goB_limited _ _ _ _ _ w1) as [lb w2]. simpl in *. congruence.
  - set (ctx := WithTimeout _ _ _).
    pose proof (goA_frame ctx (entered c) (drawA c) w) as HA.
    destruct (goA _ _ _ w) as [arrA w1].
    pose proof (goB_frame ctx (entered c) (drawB c) w1) as HB.
    destruct (goB _ _ _ w1) as [arrB w2]. simpl in *. congruence.
Qed.

(** A request through [Instrument] whose handler returns or panics. *)
Lemma Instrument_balanced (ep : string) (next : HandlerFunc) (c : GinContext)
    (w : World) :
  (∀ w0, inflight (metrics (snd (next c w0))) = inflight (metrics w0)) →
  fst (next c (snd (on_inflight (IncInflight ep) w))) ≠ Blocked →
  min_int64 <= inflight_value ep (inflight (metrics w)) <= max_int64 →
  fst (Instrument ep next c w) = fst (next c (snd (on_inflight (IncInflight ep) w))) ∧
  inflight (metrics (snd (next c (snd (on_inflight (IncInflight ep) w)))))
  = IncInflight ep (inflight (metrics w)) ∧
  inflight (metrics (snd (Instrument ep next c w)))
  = <[ep := inflight_value ep (inflight (metrics w))]> (inflight (metrics w)).
Proof.
  intros Hframe Hterm Hv. unfold Instrument.
  unfold mbind, M_bind, mret, M_ret.
  unfold on_inflight in *. simpl in *.
  set (w1 := {| metrics := set_inflight (IncInflight ep) (metrics w); calls := calls w |}) in *.
  specialize (Hframe w1).
  destruct (next c w1) as [o w2]. simpl in *.
  split; [by destruct o|]. split; [done|].
  destruct o as [r t| |]; simpl; [| |done].
  - rewrite Hframe. by apply Inc_then_Dec.
  - rewrite Hframe. by apply Inc_then_Dec.
Qed.

Lemma startServer_invariant (eps : list string) (ep : string) :
  inflight_value ep (gauges (startServer eps)) = inHandler ep (startServer eps).
Proof.
  unfold inHandler, startServer. simpl. rewrite total_zero.
  - unfold inflight_value. by rewrite lookup_empty.
  - apply Forall_fmap, Forall_true. intros x. simpl.
    rewrite inside_stage. simpl. by case_decide.
Qed.

(** C7: the in-flight counters.  Requests of any endpoints run interleaved
    through [Instrument] on the map of [NewMetrics] (fewer than 2^63 - 1
    of them); [s] is any state they reach.  There every counter equals the
    number of requests of its endpoint that entered their handler and have
    not left it, so it is never negative, and the deferred decrement of each
    such request finds its entry, holding at least one.  A further request
    run from there whose handler returns or panics, whatever it answers,
    raises its counter by one for the time of the handler and leaves every
    counter at the value it had before the request. *)
Theorem inflight_balanced (eps : list string) (sched : list (nat * iaction))
    (s : server) (ep : string) (next : HandlerFunc) (c : GinContext) (w : World) :
  Z.of_nat (length eps) < max_int64 →
  serve sched (startServer eps) = Some s →
  inflight (metrics w) = gauges s →
  (∀ w0, inflight (metrics (snd (next c w0))) = inflight (metrics w0)) →
  fst (next c (snd (on_inflight (IncInflight ep) w))) ≠ Blocked →
  (∀ ep', inflight_value ep' (gauges s) = inHandler ep' s ∧
          0 <= inflight_value ep' (gauges s)) ∧
  (∀ i r, requests s !! i = Some r → stage r = InHandler →
          ∃ v, gauges s !! endpoint r = Some v ∧ 1 <= v ∧
               DecInflight (endpoint r) (gauges s) = <[endpoint r := v - 1]> (gauges s)) ∧
  (let during := snd (next c (snd (on_inflight (IncInflight ep) w))) in
   let after := snd (Instrument ep next c w) in
   fst (Instrument ep next c w) = fst (next c (snd (on_inflight (IncInflight ep) w))) ∧
   inflight_value ep (inflight (metrics during)) = inflight_value ep (gauges s) + 1 ∧
   inflight (metrics after) = <[ep := inflight_value ep (gauges s)]> (gauges s) ∧
   ∀ ep', inflight_value ep' (inflight (metrics after)) = inflight_value ep' (gauges s)).
Proof.
  intros Hlen Hrun Hw Hframe Hterm.
  assert (Z.of_nat (length (requests (startServer eps))) <= max_int64) as Hlen0.
  { unfold startServer. simpl. rewrite length_fmap. lia. }
  destruct (serve_invariant sched (startServer eps) s Hlen0
              (startServer_invariant eps) Hrun) as [Hl Hinv].
  assert (length (requests s) = length eps) as Hl'.
  { rewrite Hl. unfold startServer. simpl. by rewrite length_fmap. }
  assert (∀ ep', 0 <= inHandler ep' s <= Z.of_nat (length eps)) as Hb.
  { intros ep'. rewrite <- Hl'. apply total_bounds, inside_unit. }
  split; [|split].
  - intros ep'. rewrite Hinv. specialize (Hb ep'). split; [done|lia].
  - intros i r Hr Hst.
    pose proof (total_lookup (inside (endpoint r)) (inside_unit (endpoint r))
                  _ _ _ Hr) as Hin.
    rewrite inside_stage, Hst, decide_True in Hin by done. simpl in Hin.
    fold (inHandler (endpoint r) s) in Hin.
    specialize (Hinv (endpoint r)). specialize (Hb (endpoint r)).
    unfold inflight_value in Hinv. unfold DecInflight, cell_Add.
    destruct (gauges s !! endpoint r) as [v|] eqn:Hv; simpl in Hinv; [|lia].
    exists v. split; [done|]. split; [lia|].
    apply map_eq. intros k. destruct (decide (k = endpoint r)) as [->|Hk].
    + rewrite lookup_alter_eq, Hv, lookup_insert_eq. simpl. f_equal.
      rewrite wrap64_small; [lia|]. unfold min_int64. lia.
    + by rewrite lookup_alter_ne, lookup_insert_ne.
  - assert (min_int64 <= inflight_value ep (inflight (metrics w)) <= max_int64) as Hv.
    { rewrite Hw, Hinv. specialize (Hb ep). unfold min_int64. lia. }
    destruct (Instrument_balanced ep next c w Hframe Hterm Hv) as (H1 & H2 & H3).
    cbv zeta. rewrite H2, H3, Hw. split; [done|]. split; [|split; [done|]].
    + rewrite inflight_value_Inc, decide_True by done.
      rewrite wrap64_small; [done|]. rewrite Hinv. specialize (Hb ep).
      unfold min_int64. lia.
    + intros ep'. unfold inflight_value.
      destruct (decide (ep' = ep)) as [->|Hne].
      * by rewrite lookup_insert_eq.
      * by rewrite lookup_insert_ne.
Qed.

Lemma inflight_balanced_witness :
  ∃ s, serve [(0, Enter); (1, Enter); (0, Leave)]%nat (startServer ["sync"; "async"]) = Some s ∧
       inflight_value "async" (gauges s) = 1 ∧
       inflight_value "sync" (gauges s) = 0 ∧
       inflight (metrics (snd (Instrument "async"
          (Async (New {| chan_cap := 20; chan_len := 0 |} 600))
          {| RequestContext := Background; entered := 0;
             drawA := {| a_intn := 50; a_tie := true |};
             drawB := {| b_float := 1 # 100; b_intn := 700; b_tie := true |};
             selPrio := []; gateFree := None; gateTie := true |}
          {| metrics := set_inflight (λ _, gauges s) NewMetrics; calls := [] |})))
       = <["async" := 1]> (gauges s).
Proof.
  eexists. split; [vm_compute; reflexivity|].
  match goal with |- context [gauges ?x] => set (s := x) end.
  destruct (inflight_balanced ["sync"; "async"]
              [(0, Enter); (1, Enter); (0, Leave)]%nat s "async"
              (Async (New {| chan_cap := 20; chan_len := 0 |} 600))
              {| RequestContext := Background; entered := 0;
                 drawA := {| a_intn := 50; a_tie := true |};
                 drawB := {| b_float := 1 # 100; b_intn := 700; b_tie := true |};
                 selPrio := []; gateFree := None; gateTie := true |}
              {| metrics := set_inflight (λ _, gauges s) NewMetrics; calls := [] |})
    as (Hval & _ & _ & _ & Hafter & _).
  - by vm_compute.
  - vm_compute. reflexivity.
  - reflexivity.
  - intros w0. apply (concurrent_frame Unbounded).
  - rewrite (handler_merges Unbounded). by vm_compute.
  - assert (inflight_value "async" (gauges s) = 1) as H1 by (by vm_compute).
    assert (inflight_value "sync" (gauges s) = 0) as H0 by (by vm_compute).
    split; [exact H1|]. split; [exact H0|].
    rewrite Hafter, H1. reflexivity.
Defined.

(** ** The semaphore *)

Lemma holds_unit (t : task) : 0 <= holds t <= 1.
Proof. unfold holds. destruct (pc t); lia. Qed.

Lemma boot_inv (capacity : Z) (sem0 : chan) (n : nat) :
  make_chan capacity = Some sem0 → gate_inv capacity (boot sem0 n).
Proof.
  unfold make_chan. destruct (Z.ltb_spec capacity 0); [done|].
  intros [= <-]. unfold gate_inv, holders, boot. simpl.
  split; [done|]. split.
  { rewrite total_zero; [done|]. by apply Forall_replicate. }
  split; [lia|]. apply Forall_replicate. by split.
Qed.

(** Every step keeps the invariant. *)
Lemma sys_step_inv (capacity : Z) (ia : nat * action) (s s' : sys) :
  gate_inv capacity s → sys_step ia s = Some s' → gate_inv capacity s'.
Proof.
  destruct ia as [i a]. intros (Hcap & Hlen & Hrange & Hok) Hstep.
  unfold sys_step in Hstep. simpl in Hstep.
  destruct (tasks s !! i) as [t|] eqn:Ht; [|done]. simpl in Hstep.
  destruct (task_step a (sem s) t) as [[sem' t']|] eqn:Hts; [|done].
  simpl in Hstep. injection Hstep as <-.
  pose proof (Forall_lookup_1 _ _ _ _ Hok Ht) as Hokt.
  assert (chan_cap sem' = chan_cap (sem s) ∧
          chan_len sem' = chan_len (sem s) - holds t + holds t' ∧
          0 <= chan_len sem' <= chan_cap (sem s) ∧
          task_ok t') as (Hc' & Hl' & Hr' & Hok').
  { unfold task_step, chan_send, chan_recv in Hts.
    unfold task_ok in Hokt. unfold task_ok, holds.
    destruct a, (pc t) eqn:Hpc; simpl in Hts; try done;
      repeat (match type of Hts with
              | context [if ?b then _ else _] => destruct b eqn:?
              | context [match ?x with _ => _ end] => destruct x eqn:?
              end; simpl in Hts; try done);
      injection Hts as <- <-; simpl; rewrite ?Hpc;
      rewrite ?Z.ltb_lt in *;
      repeat split; try tauto; try lia;
      destruct_and?;
      repeat match goal with H : trace t = _ |- _ => rewrite H end;
      simpl; auto; try lia. }
  unfold gate_inv, holders. simpl.
  rewrite (total_insert _ _ _ t t' Ht). fold (holders s).
  split; [congruence|]. split; [lia|]. split; [lia|].
  apply Forall_insert; done.
Qed.

Lemma exec_inv (capacity : Z) (sched : list (nat * action)) (s s' : sys) :
  gate_inv capacity s → exec sched s = Some s' → gate_inv capacity s'.
Proof.
  revert s. induction sched as [|ia sched IH]; intros s Hinv Hrun.
  - by simplify_eq/=.
  - simpl in Hrun. destruct (sys_step ia s) as [s1|] eqn:Hstep; [|done].
    simpl in Hrun. eapply IH; [|done]. by eapply sys_step_inv.
Qed.

Lemma sys_step_at (i : nat) (a : action) (s : sys) (t t' : task) (sem' : chan) :
  tasks s !! i = Some t →
  task_step a (sem s) t = Some (sem', t') →
  sys_step (i, a) s = Some {| sem := sem'; tasks := <[i := t']> (tasks s) |} ∧
  <[i := t']> (tasks s) !! i = Some t'.
Proof.
  intros Ht Hts. unfold sys_step. simpl. rewrite Ht. simpl. rewrite Hts. simpl.
  split; [done|]. apply list_lookup_insert_eq. by eapply lookup_lt_Some.
Qed.

(** A goroutine that holds a token can always run to its end, and its end
    gives the token back. *)
Lemma release_follows (capacity : Z) (s : sys) (i : nat) (t : task)
    (d : ServiceBData) (e : option error) :
  gate_inv capacity s →
  tasks s !! i = Some t →
  holds t = 1 →
  ∃ s' t',
    exec ((λ a, (i, a)) <$> remaining (pc t) d e) s = Some s' ∧
    tasks s' !! i = Some t' ∧ pc t' = Exited ∧
    trace t' = [Acquired; Released] ∧
    chan_len (sem s') = chan_len (sem s) - 1.
Proof.
  assert (∀ s t, gate_inv capacity s → tasks s !! i = Some t → pc t = Returning →
            ∃ s' t', exec [(i, RunDefer)] s = Some s' ∧
                     tasks s' !! i = Some t' ∧ pc t' = Exited ∧
                     trace t' = [Acquired; Released] ∧
                     chan_len (sem s') = chan_len (sem s) - 1) as Hret.
  { clear s t. intros s t (Hcap & Hlen & Hrange & Hok) Ht Hpc.
    pose proof (Forall_lookup_1 _ _ _ _ Hok Ht) as Hokt.
    unfold task_ok in Hokt. rewrite Hpc in Hokt.
    pose proof (total_lookup holds holds_unit _ _ _ Ht) as Hh.
    fold (holders s) in Hh. unfold holds in Hh. rewrite Hpc in Hh.
    destruct (sys_step_at i RunDefer s t
                {| pc := Exited; cancelled := cancelled t; bCh := bCh t;
                   trace := trace t ++ [Released] |}
                {| chan_cap := chan_cap (sem s); chan_len := chan_len (sem s) - 1 |} Ht)
      as [Hstep Hlook].
    { unfold task_step, chan_recv. rewrite Hpc.
      destruct (Z.ltb_spec 0 (chan_len (sem s))); [done|lia]. }
    eexists _, _. simpl. rewrite Hstep. simpl.
    split; [done|]. split; [exact Hlook|]. simpl. by rewrite Hokt. }
  assert (∀ s t r, gate_inv capacity s → tasks s !! i = Some t → pc t = Replying r →
            ∃ s' t', exec [(i, SendResult); (i, RunDefer)] s = Some s' ∧
                     tasks s' !! i = Some t' ∧ pc t' = Exited ∧
                     trace t' = [Acquired; Released] ∧
                     chan_len (sem s') = chan_len (sem s) - 1) as Hrep.
  { clear s t. intros s t r Hinv Ht Hpc.
    pose proof Hinv as (Hcap & Hlen & Hrange & Hok).
    pose proof (Forall_lookup_1 _ _ _ _ Hok Ht) as Hokt.
    unfold task_ok in Hokt. rewrite Hpc in Hokt. destruct Hokt as [Htr Hb].
    destruct (sys_step_at i SendResult s t
                {| pc := Returning; cancelled := cancelled t; bCh := Some r;
                   trace := trace t |} (sem s) Ht) as [Hstep Hlook].
    { unfold task_step. by rewrite Hpc, Hb. }
    pose proof (sys_step_inv capacity _ _ _ Hinv Hstep) as Hinv1.
    destruct (Hret _ _ Hinv1 Hlook eq_refl) as (s' & t' & Hrun & H').
    exists s', t'. split; [|exact H'].
    change (exec [(i, SendResult); (i, RunDefer)] s)
      with (sys_step (i, SendResult) s ≫= exec [(i, RunDefer)]).
    rewrite Hstep. exact Hrun. }
  intros Hinv Ht Hh. unfold holds in Hh.
  destruct (pc t) as [| |r| | |] eqn:Hpc; try done; simpl.
  - pose proof Hinv as (Hcap & Hlen & Hrange & Hok).
    destruct (sys_step_at i (BReturns d e) s t
                {| pc := Replying {| br_d := d; br_e := e |};
                   cancelled := cancelled t; bCh := bCh t; trace := trace t |}
                (sem s) Ht) as [Hstep Hlook].
    { unfold task_step. by rewrite Hpc. }
    pose proof (sys_step_inv capacity _ _ _ Hinv Hstep) as Hinv1.
    destruct (Hrep _ _ _ Hinv1 Hlook eq_refl) as (s' & t' & Hrun & H').
    exists s', t'. split; [|exact H'].
    rewrite Hstep. exact Hrun.
  - by apply (Hrep s t r).
  - by apply (Hret s t).
Qed.

Lemma exec_length (sched : list (nat * action)) (s s' : sys) :
  exec sched s = Some s' → length (tasks s') = length (tasks s).
Proof.
  revert s. induction sched as [|ia sched IH]; intros s Hrun.
  - by simplify_eq/=.
  - simpl in Hrun. destruct (sys_step ia s) as [s1|] eqn:Hstep; [|done].
    simpl in Hrun. rewrite (IH s1 Hrun).
    unfold sys_step in Hstep. destruct (tasks s !! ia.1); [|done].
    simpl in Hstep. destruct (task_step _ _ _) as [[? ?]|]; [|done].
    simpl in Hstep. injection Hstep as <-. simpl. apply length_insert.
Qed.

(** C1: the semaphore [SemB] made with a capacity and the goroutines of
    [n] requests of the bounded strategy, interleaved in any order, with
    contexts fired at any time and service B returning anything.  In every
    state reached the number of tokens in the channel is between zero and
    the capacity and equals the number of goroutines between their send and
    their deferred receive.  A goroutine's log is empty, or one acquire, or
    one acquire followed by one release, or a single denial: a denial is
    never followed by a release.  A goroutine that has exited has released
    what it acquired.  A goroutine holding a token can always run to its
    exit, whatever B returns (the context's error included), and exits
    having released its token. *)
Theorem gate_occupancy_and_pairing (capacity : Z) (sem0 : chan) (n : nat)
    (sched : list (nat * action)) (s : sys) :
  make_chan capacity = Some sem0 →
  exec sched (boot sem0 n) = Some s →
  0 <= chan_len (sem s) <= capacity ∧
  chan_cap (sem s) = capacity ∧
  chan_len (sem s) = holders s ∧
  length (tasks s) = n ∧
  ∀ i t, tasks s !! i = Some t →
    (trace t = [] ∨ trace t = [Acquired] ∨
     trace t = [Acquired; Released] ∨ trace t = [Denied]) ∧
    (holds t = 1 ↔ trace t = [Acquired]) ∧
    (pc t = Exited → trace t = [Acquired; Released] ∨ trace t = [Denied]) ∧
    (holds t = 1 → ∀ d e, ∃ s' t',
       exec ((λ a, (i, a)) <$> remaining (pc t) d e) s = Some s' ∧
       tasks s' !! i = Some t' ∧ pc t' = Exited ∧
       trace t' = [Acquired; Released] ∧
       chan_len (sem s') = chan_len (sem s) - 1).
Proof.
  intros Hmake Hrun.
  pose proof (exec_inv capacity sched _ s (boot_inv capacity sem0 n Hmake) Hrun) as Hinv.
  pose proof Hinv as (Hcap & Hlen & Hrange & Hok).
  split; [done|]. split; [done|]. split; [done|]. split.
  { rewrite (exec_length _ _ _ Hrun). unfold boot. simpl. apply length_replicate. }
  intros i t Ht.
  pose proof (Forall_lookup_1 _ _ _ _ Hok Ht) as Hokt.
  unfold task_ok in Hokt. unfold holds.
  split; [|split; [|split]].
  - destruct (pc t); naive_solver.
  - destruct (pc t); split; intros H; try done; try lia; destruct_and?;
      try destruct Hokt; congruence.
  - intros Hpc. by rewrite Hpc in Hokt.
  - intros Hh d e. by apply (release_follows capacity).
Qed.

Lemma gate_occupancy_and_pairing_witness :
  ∃ sem0 s,
    make_chan 1 = Some sem0 ∧
    exec [(0, SendSem); (1, CtxFires DeadlineExceeded); (1, SeeDone);
          (0, CtxFires DeadlineExceeded);
          (0, BReturns zeroB (Some (ErrCtx DeadlineExceeded)));
          (1, SendResult); (0, SendResult); (0, RunDefer)]%nat (boot sem0 2)
    = Some s ∧
    chan_len (sem s) = 0 ∧
    (trace <$> tasks s) = [[Acquired; Released]; [Denied]].
Proof.
  eexists _, _. split; [reflexivity|]. split; [reflexivity|].
  match goal with |- context [sem ?x] => set (s := x) end.
  destruct (gate_occupancy_and_pairing 1 {| chan_cap := 1; chan_len := 0 |} 2
              [(0, SendSem); (1, CtxFires DeadlineExceeded); (1, SeeDone);
               (0, CtxFires DeadlineExceeded);
               (0, BReturns zeroB (Some (ErrCtx DeadlineExceeded)));
               (1, SendResult); (0, SendResult); (0, RunDefer)]%nat s
              eq_refl eq_refl) as (_ & _ & Hlen & _).
  split; [|reflexivity]. rewrite Hlen. reflexivity.
Defined.

(** ** Cancellation and the status of the response *)

(** C3 (the code departs from it): a cancellation that reaches a handler
    as the error of service B is answered with status 503, the status of a
    dependency failure, and not with the 408 the handlers use when they see
    [Done] themselves.
    - [Sync]: the client goes away 200 ms after entry, while service B
      sleeps; B returns the context's error and the answer is 503.
    - [AsyncLimited]: the semaphore stays full; the context is done 100 ms
      after entry, at the instant A's result arrives; the guarded goroutine
      gives up waiting and sends the context's error on [bCh]; the loop
      takes A's result, then finds both [bCh] and [Done] ready and takes
      [bCh]: the answer is 503.
    - [AsyncLimited] again, the client being gone already when the handler
      is entered: both goroutines send the context's error at once, the
      first [select] finds all three cases ready and the loop takes [aCh],
      then [bCh]: the answer is 503.
    - For comparison, a simulated failure of B is answered 503 as well, and
      the same cancellation seen by the loop itself is answered 408. *)
Theorem cancellation_answered_as_failure (h : Handlers) (w : World) :
  let dA := {| a_intn := 50; a_tie := true |} in
  let dB := {| b_float := 1 # 2; b_intn := 700; b_tie := true |} in
  let dBfail := {| b_float := 1 # 100; b_intn := 700; b_tie := true |} in
  let gone (ms : Z) := {| ctxDone := Some (ms * Millisecond, Canceled) |} in
  let req ctx prio dB :=
    {| RequestContext := ctx; entered := 0; drawA := dA; drawB := dB;
       selPrio := prio; gateFree := None; gateTie := true |} in
  let answer mode ms st txt :=
    Returned {| status := st;
                body := BodyError {| E_Mode := mode; E_TotalMs := ms;
                                     E_Error := txt |} |} (ms * Millisecond) in
  (ServiceB (gone 200) (100 * Millisecond) dB).1.2 = Some (ErrCtx Canceled) ∧
  fst (Sync h (req (gone 200) [] dB) w)
  = answer "sync" 200 StatusServiceUnavailable "context canceled" ∧
  sentB (fst (goB_limited (gone 100) 0 None true dB w))
  = Some (100 * Millisecond, {| br_d := zeroB; br_e := Some (ErrCtx Canceled) |}) ∧
  fst (AsyncLimited h (req (gone 100) [[CaseA]; [CaseB]] dB) w)
  = answer "async-limited" 100 StatusServiceUnavailable "A:<nil> B:context canceled" ∧
  fst (AsyncLimited h (req (gone 0) [[CaseA]; [CaseB]] dB) w)
  = answer "async-limited" 0 StatusServiceUnavailable
      "A:context canceled B:context canceled" ∧
  fst (Sync h (req Background [] dBfail) w)
  = answer "sync" 100 StatusServiceUnavailable "service B simulated failure" ∧
  fst (AsyncLimited h (req (gone 100) [[CaseA]; [CaseDone]] dB) w)
  = answer "async-limited" 100 StatusRequestTimeout "context canceled" ∧
  kindOf {| status := StatusServiceUnavailable;
            body := BodyError {| E_Mode := "sync"; E_TotalMs := 200;
                                 E_Error := "context canceled" |} |}
  = Some DependencyFailure.
Proof.
  intros dA dB dBfail gone req answer.
  repeat split; vm_compute; reflexivity.
Qed.

(** * Further properties *)

(** ** Service A *)

Lemma select_cases (ctx : Context) (now d : Z) (tie : bool) :
  0 < d →
  select_timer_ctx ctx now d tie = (Timer, now + d) ∧
    (∀ t e, ctxDone ctx = Some (t, e) → now + d <= t)
  ∨ ∃ t e, ctxDone ctx = Some (t, e) ∧ t <= now + d ∧
           select_timer_ctx ctx now d tie = (CtxDone, Z.max t now).
Proof.
  intros Hd. unfold select_timer_ctx, doneAt.
  destruct (ctxDone ctx) as [[t e]|]; simpl; [|left; split; [done|]; congruence].
  destruct (Z.ltb_spec (Z.max t now) (now + d)).
  { right. exists t, e. split; [done|]. split; [lia|done]. }
  destruct (Z.ltb_spec (now + d) (Z.max t now)).
  { left. split; [done|]. intros ? ? [= <- <-]. lia. }
  destruct tie.
  - left. split; [done|]. intros ? ? [= <- <-]. lia.
  - right. exists t, e. split; [done|]. split; [lia|done].
Qed.

(** X1: Service A called with a draw of [rand.Intn(101)]: the sleep is between
    50 and 150 ms and the call returns within it.  It returns
    ["data-from-A"] with the sleep at the end of the sleep, or the error of
    its context at the instant the context is done (at once when it was
    done already); it never reports an error of its own. *)
Theorem ServiceA_contract (ctx : Context) (now : Z) (dr : drawsA) :
  Intn_ok 101 (a_intn dr) →
  let ms := randRange 50 150 (a_intn dr) in
  let wake := now + ms * Millisecond in
  50 <= ms <= 150 ∧
  now <= (ServiceA ctx now dr).2 <= wake ∧
  (ServiceA ctx now dr
   = ({| A_Value := "data-from-A"; A_SleepMs := ms |}, None, wake)
   ∨ ∃ t e, ctxDone ctx = Some (t, e) ∧ t <= wake ∧
            ServiceA ctx now dr = (zeroA, Some (ErrCtx e), Z.max t now)) ∧
  ((ctxDone ctx = None ∨ ∃ t e, ctxDone ctx = Some (t, e) ∧ wake < t) →
   ServiceA ctx now dr
   = ({| A_Value := "data-from-A"; A_SleepMs := ms |}, None, wake)) ∧
  (∀ t e, ctxDone ctx = Some (t, e) → t < wake →
          ServiceA ctx now dr = (zeroA, Some (ErrCtx e), Z.max t now)).
Proof.
  intros Hr ms wake.
  destruct (sleepA_duration _ Hr) as [Hms Hdur]. fold ms in Hms, Hdur.
  assert (0 < ms * Millisecond) as Hpos by (unfold Millisecond; lia).
  split; [done|].
  assert (ServiceA ctx now dr
          = ({| A_Value := "data-from-A"; A_SleepMs := ms |}, None, wake) ∧
          (∀ t e, ctxDone ctx = Some (t, e) → wake <= t)
          ∨ ∃ t e, ctxDone ctx = Some (t, e) ∧ t <= wake ∧
                   ServiceA ctx now dr = (zeroA, Some (ErrCtx e), Z.max t now))
    as Hcases.
  { unfold ServiceA. fold ms. rewrite Hdur.
    destruct (select_cases ctx now (ms * Millisecond) (a_tie dr) Hpos)
      as [[-> Hlate]|(t & e & Ht & Hle & ->)].
    - by left.
    - right. exists t, e. split; [done|]. split; [done|].
      by rewrite (Err_at_done ctx t e) by (done || lia). }
  split; [|split; [|split]].
  - destruct Hcases as [[-> _]|(t & e & _ & Hle & ->)]; simpl; unfold wake in *; lia.
  - destruct Hcases as [[? _]|?]; [by left|by right].
  - intros Hlive. destruct Hcases as [[? _]|(t & e & Ht & Hle & _)]; [done|].
    destruct Hlive as [?|(t' & e' & Ht' & Hlt)]; [congruence|].
    rewrite Ht in Ht'. injection Ht' as <- <-. lia.
  - intros t e Ht Hlt. destruct Hcases as [[_ Hlate]|(t' & e' & Ht' & _ & ?)].
    + specialize (Hlate t e Ht). lia.
    + rewrite Ht in Ht'. by injection Ht' as <- <-.
Qed.

Lemma ServiceA_contract_witness :
  Intn_ok 101 50 ∧
  ServiceA {| ctxDone := Some (30 * Millisecond, Canceled) |} 0
           {| a_intn := 50; a_tie := true |}
  = (zeroA, Some (ErrCtx Canceled), 30 * Millisecond).
Proof.
  split; [by vm_compute|].
  pose proof (ServiceA_contract {| ctxDone := Some (30 * Millisecond, Canceled) |} 0
                {| a_intn := 50; a_tie := true |}) as H.
  destruct H as (_ & _ & _ & _ & H); [by vm_compute|].
  apply (H (30 * Millisecond) Canceled); [reflexivity|by vm_compute].
Defined.

(** ** Latency of the strategies under a context that is never done *)

Lemma SinceMs_ms (start n : Z) : SinceMs start (start + n * Millisecond) = n.
Proof.
  unfold SinceMs, Milliseconds.
  replace (start + n * Millisecond - start) with (n * Millisecond) by lia.
  apply Z.quot_mul. unfold Millisecond. lia.
Qed.

Lemma ServiceA_live (ctx : Context) (now : Z) (dr : drawsA) :
  ctxDone ctx = None → Intn_ok 101 (a_intn dr) →
  ServiceA ctx now dr
  = ({| A_Value := "data-from-A"; A_SleepMs := randRange 50 150 (a_intn dr) |},
     None, now + randRange 50 150 (a_intn dr) * Millisecond).
Proof.
  intros Hctx Hr. unfold ServiceA.
  destruct (sleepA_duration _ Hr) as [_ ->]. by rewrite select_never_done.
Qed.

Lemma ServiceB_live (ctx : Context) (now : Z) (dr : drawsB) :
  ctxDone ctx = None → Intn_ok 901 (b_intn dr) →
  ServiceB ctx now dr
  = if Qltb (b_float dr) p_err then (zeroB, Some ErrSimulated, now)
    else ({| B_Value := "data-from-B"; B_SleepMs := randRange 300 1200 (b_intn dr) |},
          None, now + randRange 300 1200 (b_intn dr) * Millisecond).
Proof.
  intros Hctx Hr. unfold ServiceB. destruct (Qltb _ _); [done|].
  destruct (sleepB_duration _ Hr) as [_ ->]. by rewrite select_never_done.
Qed.

(** What [Sync] answers, from what the two services return. *)
Lemma Sync_answer (h : Handlers) (c : GinContext) (w : World) :
  fst (Sync h c w)
  = let start := entered c in
    let ctx := RequestContext c in
    let '(a, errA, t1) := ServiceA ctx start (drawA c) in
    if errA is Some _ then respondErr "sync" start t1 StatusRequestTimeout errA
    else
      let '(b, errB, t2) := ServiceB ctx t1 (drawB c) in
      if errB is Some _ then respondErr "sync" start t2 StatusServiceUnavailable errB
      else respondOK "sync" start t2 a b.
Proof.
  unfold Sync, mbind, M_bind, mret, M_ret. cbv zeta.
  pose proof (callServiceA_result (RequestContext c) (entered c) (drawA c) w) as HA.
  destruct (callServiceA _ _ _ w) as [[[a eA'] t1] w1]. simpl in HA. rewrite <- HA.
  destruct eA' as [e|]; [done|].
  pose proof (callServiceB_result (RequestContext c) t1 (drawB c) w1) as HB.
  destruct (callServiceB _ _ _ w1) as [[[b eB'] t2] w2]. simpl in HB. rewrite <- HB.
  by destruct eB'.
Qed.

(** X2: [Sync] under a request context that is never done: the answer is never
    a 408.  When B does not fail the answer is 200 with both payloads and a
    total latency that is the sum of the two sleeps; when B fails, the
    answer is 503 after A's sleep alone. *)
Theorem Sync_latency (h : Handlers) (c : GinContext) (w : World) :
  ctxDone (RequestContext c) = None →
  Intn_ok 101 (a_intn (drawA c)) →
  Intn_ok 901 (b_intn (drawB c)) →
  let msA := randRange 50 150 (a_intn (drawA c)) in
  let msB := randRange 300 1200 (b_intn (drawB c)) in
  fst (Sync h c w)
  = if Qltb (b_float (drawB c)) p_err
    then Returned {| status := StatusServiceUnavailable;
                     body := BodyError {| E_Mode := "sync"; E_TotalMs := msA;
                                          E_Error := "service B simulated failure" |} |}
                  (entered c + msA * Millisecond)
    else Returned {| status := StatusOK;
                     body := BodyCombined
                               {| C_ServiceAData := {| A_Value := "data-from-A";
                                                       A_SleepMs := msA |};
                                  C_ServiceBData := {| B_Value := "data-from-B";
                                                       B_SleepMs := msB |};
                                  C_Mode := "sync"; C_TotalMs := msA + msB |} |}
                  (entered c + (msA + msB) * Millisecond).
Proof.
  intros Hctx HrA HrB msA msB. rewrite Sync_answer. cbv zeta.
  rewrite (ServiceA_live _ _ _ Hctx HrA), (ServiceB_live _ _ _ Hctx HrB).
  fold msA msB. destruct (Qltb _ _); simpl.
  - unfold respondErr. by rewrite SinceMs_ms.
  - unfold respondOK.
    replace (entered c + msA * Millisecond + msB * Millisecond)
      with (entered c + (msA + msB) * Millisecond) by lia.
    by rewrite SinceMs_ms.
Qed.

Lemma Sync_latency_witness :
  ∃ r, fst (Sync (New {| chan_cap := 20; chan_len := 0 |} 600)
              {| RequestContext := Background; entered := 0;
                 drawA := {| a_intn := 50; a_tie := true |};
                 drawB := {| b_float := 1 # 2; b_intn := 700; b_tie := true |};
                 selPrio := []; gateFree := None; gateTie := true |}
              {| metrics := NewMetrics; calls := [] |})
       = Returned r (1100 * Millisecond) ∧ status r = StatusOK.
Proof.
  eexists. split.
  - rewrite Sync_latency; [|reflexivity|by vm_compute|by vm_compute]. reflexivity.
  - reflexivity.
Defined.

(** The merge of two results sent before the context is done. *)
Lemma merge_both_sent (mode : string) (ctx : Context) (start tA tB : Z)
    (ra : aRes) (rb : bRes) (sel : list (list scase)) :
  start <= tA → start <= tB →
  (∀ tD, doneAt ctx = Some tD → tA < tD ∧ tB < tD) →
  mergeAndRespond mode ctx start (Some (tA, ra)) (Some (tB, rb)) sel
  = if bool_decide (ar_e ra ≠ None ∨ br_e rb ≠ None)
    then Returned {| status := StatusServiceUnavailable;
                     body := BodyError {| E_Mode := mode;
                                          E_TotalMs := SinceMs start (Z.max tA tB);
                                          E_Error := Error (ErrBoth (ar_e ra) (br_e rb)) |} |}
                  (Z.max tA tB)
    else Returned {| status := StatusOK;
                     body := BodyCombined {| C_ServiceAData := ar_d ra;
                                             C_ServiceBData := br_d rb;
                                             C_Mode := mode;
                                             C_TotalMs := SinceMs start (Z.max tA tB) |} |}
                  (Z.max tA tB).
Proof.
  intros HsA HsB Hbefore. apply merge_both.
  destruct (fanIn_spec ctx (Some (tA, ra)) (Some (tB, rb))
              (or_intror (conj (mk_is_Some _ _ eq_refl) (mk_is_Some _ _ eq_refl)))
              fanInFuel sel start loopInit)
    as (res & T' & Hrun & Hle & Hmin & Hres); [vm_compute; lia|].
  assert (allBy loopInit (Some (tA, ra)) (Some (tB, rb)) (Z.max tA tB) = true) as HallT.
  { unfold allBy. simpl.
    destruct (Z.leb_spec tA (Z.max tA tB)); [|lia].
    destruct (Z.leb_spec tB (Z.max tA tB)); [done|lia]. }
  assert (T' <= Z.max tA tB) as HT'.
  { destruct (Z.le_gt_cases T' (Z.max tA tB)) as [?|Hgt]; [done|].
    destruct (Hmin (Z.max tA tB)) as [Hf _]; [lia|]. congruence. }
  rewrite Hrun. destruct Hres as [[-> Hall]|(tD & e & HD & HtD & ->)].
  - unfold allBy in Hall. simpl in Hall.
    apply andb_true_iff in Hall as [H1 H2].
    apply Z.leb_le in H1, H2. do 3 f_equal. lia.
  - exfalso. destruct (Hbefore tD); [unfold doneAt; by rewrite HD|]. lia.
Qed.

(** Without a [Done] to wait for, the loop stays parked for ever as soon as
    one of the two results is never sent. *)
Lemma merge_blocks (mode : string) (ctx : Context) (start : Z)
    (arrA : option (Z * aRes)) (arrB : option (Z * bRes)) (sel : list (list scase)) :
  ctxDone ctx = None → arrA = None ∨ arrB = None →
  mergeAndRespond mode ctx start arrA arrB sel = Blocked.
Proof.
  intros Hctx Hnone.
  assert (doneAt ctx = None) as HD by (unfold doneAt; by rewrite Hctx).
  assert (∀ fuel sel now v,
            (gotA v = false ∧ arrA = None) ∨ (gotB v = false ∧ arrB = None) →
            fanIn fuel ctx arrA arrB sel now v = Block ∨
            fanIn fuel ctx arrA arrB sel now v = OutOfFuel) as Hloop.
  { induction fuel as [|fuel IH]; intros sel' now v Hv.
    - simpl. destruct Hv as [[-> _]|[-> _]]; rewrite ?andb_false_r; simpl; auto.
    - cbn [fanIn].
      assert (gotA v && gotB v = false) as ->.
      { destruct Hv as [[-> _]|[-> _]]; by rewrite ?andb_false_r. }
      destruct (selectOnce ctx arrA arrB (hd [] sel') now v) as [t v'|err t|] eqn:Hp;
        [| |by left].
      + apply IH. revert Hp. unfold selectOnce.
        destruct (selectAt _ _ _ _) as [[t0 parked]|]; [|done].
        match goal with |- context [pick _ ?r] => set (ready := r) end.
        destruct (pick (hd [] sel') ready) as [[]|] eqn:Hc; [| |done|done].
        * destruct arrA as [[x ar]|]; [|done]. intros [= <- <-]. simpl.
          destruct Hv as [[_ ?]|?]; [done|by right].
        * destruct arrB as [[x br]|]; [|by destruct arrA as [[? ?]|]].
          destruct Hv as [?|[_ ?]]; [|done].
          destruct arrA as [[? ?]|]; intros [= <- <-]; simpl; by left.
      + exfalso. revert Hp. unfold selectOnce.
        destruct (selectAt _ _ _ _) as [[t0 parked]|]; [|done].
        match goal with |- context [pick _ ?r] => set (ready := r) end.
        destruct (pick (hd [] sel') ready) as [[]|] eqn:Hc.
        * by destruct arrA as [[? ?]|].
        * by destruct arrA as [[? ?]|], arrB as [[? ?]|].
        * apply pick_ready in Hc. simpl in Hc. by rewrite HD in Hc.
        * done. }
  unfold mergeAndRespond.
  destruct (Hloop fanInFuel sel start loopInit) as [-> | ->]; [|done..].
  destruct Hnone; [by left|by right].
Qed.

(** X3: [Async] under a request context that is never done: the handler always
    answers, never with a 408.  When B does not fail the answer is 200 with
    a total latency that is the longer of the two sleeps; when B fails at
    once, the answer is 503 with both results' errors in its text, given
    when A's sleep ends. *)
Theorem Async_latency (h : Handlers) (c : GinContext) (w : World) :
  ctxDone (RequestContext c) = None →
  Intn_ok 101 (a_intn (drawA c)) →
  Intn_ok 901 (b_intn (drawB c)) →
  let msA := randRange 50 150 (a_intn (drawA c)) in
  let msB := randRange 300 1200 (b_intn (drawB c)) in
  fst (Async h c w)
  = if Qltb (b_float (drawB c)) p_err
    then Returned {| status := StatusServiceUnavailable;
                     body := BodyError {| E_Mode := "async"; E_TotalMs := msA;
                                          E_Error := "A:<nil> B:service B simulated failure" |} |}
                  (entered c + msA * Millisecond)
    else Returned {| status := StatusOK;
                     body := BodyCombined
                               {| C_ServiceAData := {| A_Value := "data-from-A";
                                                       A_SleepMs := msA |};
                                  C_ServiceBData := {| B_Value := "data-from-B";
                                                       B_SleepMs := msB |};
                                  C_Mode := "async"; C_TotalMs := Z.max msA msB |} |}
                  (entered c + Z.max msA msB * Millisecond).
Proof.
  intros Hctx HrA HrB msA msB.
  destruct (sleepA_duration _ HrA) as [HmsA _].
  destruct (sleepB_duration _ HrB) as [HmsB _]. fold msA in HmsA. fold msB in HmsB.
  pose proof (handler_merges Unbounded h c w) as Hm.
  change (handlerOf Unbounded) with Async in Hm. rewrite Hm. clear Hm.
  unfold taskA, taskB, sharedContext, modeOf.
  rewrite goA_result, goB_result.
  rewrite (ServiceA_live _ _ _ Hctx HrA), (ServiceB_live _ _ _ Hctx HrB).
  fold msA msB.
  assert (∀ tD, doneAt (RequestContext c) = Some tD → False) as Hnever.
  { unfold doneAt. by rewrite Hctx. }
  destruct (Qltb _ _); simpl; rewrite merge_both_sent;
    try (unfold Millisecond; lia); try (intros tD HtD; by destruct (Hnever tD));
    simpl.
  - rewrite Z.max_l by (unfold Millisecond; lia). by rewrite SinceMs_ms.
  - replace (Z.max (entered c + msA * Millisecond) (entered c + msB * Millisecond))
      with (entered c + Z.max msA msB * Millisecond) by (unfold Millisecond; lia).
    by rewrite SinceMs_ms.
Qed.

Lemma Async_latency_witness :
  ∃ r, fst (Async (New {| chan_cap := 20; chan_len := 0 |} 600)
              {| RequestContext := Background; entered := 0;
                 drawA := {| a_intn := 50; a_tie := true |};
                 drawB := {| b_float := 1 # 2; b_intn := 700; b_tie := true |};
                 selPrio := [[CaseB]]; gateFree := None; gateTie := true |}
              {| metrics := NewMetrics; calls := [] |})
       = Returned r (1000 * Millisecond) ∧ status r = StatusOK.
Proof.
  eexists. split.
  - rewrite Async_latency; [|reflexivity|by vm_compute|by vm_compute]. reflexivity.
  - reflexivity.
Defined.

(** ** The bounded strategy and its gate *)


(** X5: [AsyncLimited] under a request context that is never done.  When the
    send on the semaphore can never proceed the handler never answers, and
    through [Instrument] the in-flight counter of its endpoint stays raised.
    When the send can proceed from some instant on, the handler answers:
    200 when B does not fail, at the later of A's sleep and the wait for the
    token followed by B's sleep; 503 when B fails, once the token is taken
    and A has returned. *)
Theorem AsyncLimited_never_done (h : Handlers) (c : GinContext) (w : World) :
  ctxDone (RequestContext c) = None →
  Intn_ok 101 (a_intn (drawA c)) →
  Intn_ok 901 (b_intn (drawB c)) →
  let start := entered c in
  let msA := randRange 50 150 (a_intn (drawA c)) in
  let msB := randRange 300 1200 (b_intn (drawB c)) in
  (gateFree c = None →
     fst (AsyncLimited h c w) = Blocked ∧
     fst (Instrument "async-limited" (AsyncLimited h) c w) = Blocked ∧
     inflight (metrics (snd (Instrument "async-limited" (AsyncLimited h) c w)))
     = IncInflight "async-limited" (inflight (metrics w))) ∧
  (∀ f, gateFree c = Some f →
     let s := Z.max start f in
     fst (AsyncLimited h c w)
     = if Qltb (b_float (drawB c)) p_err
       then
         let T := Z.max (start + msA * Millisecond) s in
         Returned {| status := StatusServiceUnavailable;
                     body := BodyError {| E_Mode := "async-limited";
                                          E_TotalMs := SinceMs start T;
                                          E_Error := "A:<nil> B:service B simulated failure" |} |} T
       else
         let T := Z.max (start + msA * Millisecond) (s + msB * Millisecond) in
         Returned {| status := StatusOK;
                     body := BodyCombined
                               {| C_ServiceAData := {| A_Value := "data-from-A";
                                                       A_SleepMs := msA |};
                                  C_ServiceBData := {| B_Value := "data-from-B";
                                                       B_SleepMs := msB |};
                                  C_Mode := "async-limited";
                                  C_TotalMs := SinceMs start T |} |} T).
Proof.
  intros Hctx HrA HrB start msA msB.
  destruct (sleepA_duration _ HrA) as [HmsA _].
  destruct (sleepB_duration _ HrB) as [HmsB _]. fold msA in HmsA. fold msB in HmsB.
  assert (∀ w0, fst (AsyncLimited h c w0)
                = mergeAndRespond "async-limited" (RequestContext c) start
                    (taskA Bounded h c w0) (taskB Bounded h c w0) (selPrio c)) as Hm.
  { intros w0. apply (handler_merges Bounded). }
  assert (doneAt (RequestContext c) = None) as HD by (unfold doneAt; by rewrite Hctx).
  split.
  - intros Hfree.
    assert (∀ w0, fst (AsyncLimited h c w0) = Blocked) as Hblk.
    { intros w0. rewrite Hm. apply merge_blocks; [done|]. right.
      unfold taskB, sharedContext. rewrite Hfree.
      unfold goB_limited. rewrite HD. done. }
    split; [apply Hblk|].
    unfold Instrument, mbind, M_bind, mret, M_ret, on_inflight.
    set (w1 := {| metrics := set_inflight _ (metrics w); calls := calls w |}).
    pose proof (Hblk w1) as Hb.
    pose proof (concurrent_frame Bounded h c w1) as Hfr.
    change (handlerOf Bounded) with AsyncLimited in Hfr.
    destruct (AsyncLimited h c w1) as [o w2]. simpl in *. subst o. done.
  - intros f Hfree s. rewrite Hm. unfold taskA, taskB, sharedContext.
    rewrite goA_result, (ServiceA_live _ _ _ Hctx HrA). fold msA start.
    pose proof (goB_limited_cases (RequestContext c) start (gateFree c)
                  (gateTie c) (drawB c) w) as Hc.
    cbv zeta in Hc. rewrite HD in Hc. rewrite Hfree in Hc |- *.
    destruct Hc as [(? & _)|[(s' & Hs' & _ & -> & _)|(t & ? & _)]]; [done| |done].
    injection Hs' as <-. fold s.
    rewrite (ServiceB_live _ _ _ Hctx HrB). fold msB.
    assert (start <= s) by (unfold s; lia).
    assert (∀ tD, doneAt (RequestContext c) = Some tD → False) as Hnever.
    { by rewrite HD. }
    destruct (Qltb _ _); simpl; rewrite merge_both_sent;
      try (unfold Millisecond; lia); try (intros tD HtD; by destruct (Hnever tD));
      done.
Qed.

Lemma AsyncLimited_never_done_witness :
  fst (AsyncLimited (New {| chan_cap := 0; chan_len := 0 |} 600)
         {| RequestContext := Background; entered := 0;
            drawA := {| a_intn := 50; a_tie := true |};
            drawB := {| b_float := 1 # 2; b_intn := 700; b_tie := true |};
            selPrio := []; gateFree := None; gateTie := true |}
         {| metrics := NewMetrics; calls := [] |}) = Blocked.
Proof.
  destruct (AsyncLimited_never_done (New {| chan_cap := 0; chan_len := 0 |} 600)
         {| RequestContext := Background; entered := 0;
            drawA := {| a_intn := 50; a_tie := true |};
            drawB := {| b_float := 1 # 2; b_intn := 700; b_tie := true |};
            selPrio := []; gateFree := None; gateTie := true |}
         {| metrics := NewMetrics; calls := [] |}) as [H _];
    [reflexivity|by vm_compute|by vm_compute|].
  by destruct H as [H _].
Defined.

(** ** Cancellation seen by the loop *)

(** The loop parked before the instant [tD] at which [Done] is closed, with
    every awaited result either sent before [tD] or out of reach before
    [Done], and at least one out of reach: it receives what was sent before
    [tD] and then takes the [Done] case, at [tD]. *)
Lemma loop_cancelled (ctx : Context) (tD : Z) (e : ctxErr)
    (arrA : option (Z * aRes)) (arrB : option (Z * bRes)) :
  ctxDone ctx = Some (tD, e) →
  ∀ (fuel : nat) (sel : list (list scase)) (now : Z) (v : loopVars),
    now < tD → (pendings v ≤ fuel)%nat →
    (gotA v = true ∨ early tD (sentA arrA) ∨ behind tD (sentA arrA)) →
    (gotB v = true ∨ early tD (sentByB arrB) ∨ behind tD (sentByB arrB)) →
    (gotA v = false ∧ behind tD (sentA arrA)) ∨
    (gotB v = false ∧ behind tD (sentByB arrB)) →
    fanIn fuel ctx arrA arrB sel now v = Ret (DoneFired (Some (ErrCtx e)), tD).
Proof.
  intros HD.
  assert (doneAt ctx = Some tD) as HdA by (unfold doneAt; by rewrite HD).
  induction fuel as [|fuel IH]; intros sel now v Hnow Hfuel HcA HcB Hbeh.
  { exfalso. unfold pendings in Hfuel.
    destruct Hbeh as [[Hg _]|[Hg _]]; rewrite Hg in Hfuel;
      destruct (gotA v), (gotB v); simpl in *; lia. }
  cbn [fanIn].
  assert (gotA v && gotB v = false) as ->.
  { destruct Hbeh as [[-> _]|[-> _]]; by rewrite ?andb_false_r. }
  unfold selectOnce.
  destruct (selectAt now (eventAt (gotA v) arrA) (eventAt (gotB v) arrB)
              (doneAt ctx)) as [[t parked]|] eqn:Hsel.
  2:{ apply selectAt_none in Hsel as (_ & _ & ?). congruence. }
  pose proof (some_case_ready _ _ _ _ _ _ _ _ Hsel) as Hready.
  assert (t <= tD ∧ (parked = false → t < tD) ∧
          (parked = true → (∀ x, eventAt (gotA v) arrA = Some x → t <= x) ∧
                           (∀ x, eventAt (gotB v) arrB = Some x → t <= x)))
    as (HtD & Hpoll & Hpark).
  { destruct parked.
    - apply selectAt_parked in Hsel as (_ & _ & _ & _ & _ & HA & HB & HDn).
      split; [by apply HDn|]. split; [done|]. intros _. by split.
    - apply selectAt_polled in Hsel as [-> _]. split; [lia|]. split; [done|done]. }
  match goal with |- context [pick _ ?r] => set (ready := r) end.
  assert (∃ c, pick (hd [] sel) ready = Some c) as [c Hc].
  { destruct Hready as [H|[H|H]];
      [apply (pick_some _ _ CaseA)|apply (pick_some _ _ CaseB)
      |apply (pick_some _ _ CaseDone)]; exact H. }
  rewrite Hc. pose proof (pick_ready _ _ _ Hc) as Hrc.
  destruct c; simpl in Hrc.
  - apply andb_true_iff in Hrc as [Hrc Hlate].
    apply leb_opt_true in Hrc as (x & Hx & Hxt).
    pose proof Hx as Hx'. apply eventAt_Some in Hx' as [HgA [ar ->]].
    simpl in Hlate.
    assert (x < tD ∧ t < tD) as [HxD HtlD].
    { destruct HcA as [?|[Hearly|Hb]]; [congruence| |].
      - simpl in Hearly. split; [done|].
        destruct parked; [|by apply Hpoll].
        destruct (Hpark eq_refl) as [HA _]. specialize (HA x Hx). lia.
      - exfalso. simpl in Hb. destruct Hb as [?|[-> Haft]]; [lia|].
        assert (t = tD) as -> by lia.
        destruct parked; [|specialize (Hpoll eq_refl); lia].
        unfold lateFor in Hlate. rewrite Haft, HdA in Hlate.
        by rewrite bool_decide_eq_true_2 in Hlate. }
    apply IH; simpl; [done| |by left|done|].
    + unfold pendings in *. rewrite HgA in Hfuel. destruct (gotB v); simpl in *; lia.
    + right. destruct Hbeh as [[_ Hb]|?]; [|done].
      simpl in Hb. lia.
  - apply andb_true_iff in Hrc as [Hrc Hlate].
    apply leb_opt_true in Hrc as (x & Hx & Hxt).
    pose proof Hx as Hx'. apply eventAt_Some in Hx' as [HgB [br ->]].
    simpl in Hlate.
    assert (x < tD ∧ t < tD) as [HxD HtlD].
    { destruct HcB as [?|[Hearly|Hb]]; [congruence| |].
      - simpl in Hearly. split; [done|].
        destruct parked; [|by apply Hpoll].
        destruct (Hpark eq_refl) as [_ HB]. specialize (HB x Hx). lia.
      - exfalso. simpl in Hb. destruct Hb as [?|[-> Haft]]; [lia|].
        assert (t = tD) as -> by lia.
        destruct parked; [|specialize (Hpoll eq_refl); lia].
        unfold lateFor in Hlate. rewrite Haft, HdA in Hlate.
        by rewrite bool_decide_eq_true_2 in Hlate. }
    assert (fanIn fuel ctx arrA (Some (x, br)) (tl sel) t
              {| gotA := gotA v; gotB := true; va := va v; vb := br_d br;
                 eA := eA v; eB := br_e br |}
            = Ret (DoneFired (Some (ErrCtx e)), tD)) as Hgoal.
    { apply IH; simpl; [done| |done|by left|].
      + unfold pendings in *. rewrite HgB in Hfuel. destruct (gotA v); simpl in *; lia.
      + left. destruct Hbeh as [?|[_ Hb]]; [done|].
        simpl in Hb. lia. }
    destruct arrA as [[? ?]|]; exact Hgoal.
  - rewrite HdA in Hrc. simpl in Hrc. apply Z.leb_le in Hrc.
    assert (t = tD) as -> by lia.
    rewrite (Err_at_done ctx tD e tD) by (done || lia).
    by destruct arrA as [[? ?]|], arrB as [[? ?]|].
Qed.

Lemma merge_cancelled (mode : string) (ctx : Context) (tD : Z) (e : ctxErr)
    (start : Z) (arrA : option (Z * aRes)) (arrB : option (Z * bRes))
    (sel : list (list scase)) :
  ctxDone ctx = Some (tD, e) → start < tD →
  early tD (sentA arrA) ∨ behind tD (sentA arrA) →
  early tD (sentByB arrB) ∨ behind tD (sentByB arrB) →
  behind tD (sentA arrA) ∨ behind tD (sentByB arrB) →
  mergeAndRespond mode ctx start arrA arrB sel
  = Returned {| status := StatusRequestTimeout;
                body := BodyError {| E_Mode := mode;
                                     E_TotalMs := SinceMs start tD;
                                     E_Error := Error (ErrCtx e) |} |} tD.
Proof.
  intros HD Hstart HA HB Hbeh. unfold mergeAndRespond.
  rewrite (loop_cancelled ctx tD e arrA arrB HD fanInFuel sel start loopInit);
    [done|done|vm_compute; lia|by right|by right|].
  destruct Hbeh; [left|right]; done.
Qed.



Lemma ServiceA_entry_done (ctx : Context) (now t : Z) (e : ctxErr) (dr : drawsA) :
  ctxDone ctx = Some (t, e) → t <= now → Intn_ok 101 (a_intn dr) →
  ServiceA ctx now dr = (zeroA, Some (ErrCtx e), now).
Proof.
  intros HD Hle Hr. unfold ServiceA.
  destruct (sleepA_duration _ Hr) as [Hms ->].
  rewrite (select_done_first _ _ _ t e); [|done|unfold Millisecond; lia..].
  rewrite Z.max_r by lia. by rewrite (Err_at_done ctx t e).
Qed.

Lemma ServiceA_before_deadline (ctx : Context) (now tD : Z) (e : ctxErr) (dr : drawsA) :
  ctxDone ctx = Some (tD, e) → now < tD → Intn_ok 101 (a_intn dr) →
  let ms := randRange 50 150 (a_intn dr) in
  (now + ms * Millisecond < tD →
   ServiceA ctx now dr
   = ({| A_Value := "data-from-A"; A_SleepMs := ms |}, None, now + ms * Millisecond)) ∧
  (tD < now + ms * Millisecond →
   ServiceA ctx now dr = (zeroA, Some (ErrCtx e), tD)).
Proof.
  intros HD Hnow Hr ms. unfold ServiceA.
  destruct (sleepA_duration _ Hr) as [Hms ->]. fold ms in Hms |- *. split; intros Hlt.
  - rewrite (select_timer_first _ _ _ tD e); [done..|]. unfold Millisecond. lia.
  - rewrite (select_done_first _ _ _ tD e); [|done|done|unfold Millisecond; lia].
    rewrite Z.max_l by lia. by rewrite (Err_at_done ctx tD e) by (done || lia).
Qed.

Lemma ServiceB_after_deadline (ctx : Context) (now tD : Z) (e : ctxErr) (dr : drawsB) :
  ctxDone ctx = Some (tD, e) → now < tD → Intn_ok 901 (b_intn dr) →
  Qltb (b_float dr) p_err = false →
  tD < now + randRange 300 1200 (b_intn dr) * Millisecond →
  ServiceB ctx now dr = (zeroB, Some (ErrCtx e), tD).
Proof.
  intros HD Hnow Hr Hu Hlt. unfold ServiceB. rewrite Hu.
  destruct (sleepB_duration _ Hr) as [Hms ->].
  rewrite (select_done_first _ _ _ tD e); [|done|done|unfold Millisecond; lia].
  rewrite Z.max_l by lia. by rewrite (Err_at_done ctx tD e) by (done || lia).
Qed.

(** X7: The timeout strategy when B sleeps longer than the timeout (a positive
    one, the request context never done, B not failing, and A's sleep not
    ending at the very instant of the deadline): the answer is a 408 with
    [context deadline exceeded], given exactly when the timeout has
    elapsed; the total latency reported is the timeout. *)
Theorem AsyncTimeout_deadline_exceeded (h : Handlers) (c : GinContext) (w : World) :
  ctxDone (RequestContext c) = None →
  0 < TimeoutMs h →
  TimeoutMs h * Millisecond <= max_int64 →
  Intn_ok 101 (a_intn (drawA c)) →
  Intn_ok 901 (b_intn (drawB c)) →
  Qltb (b_float (drawB c)) p_err = false →
  TimeoutMs h < randRange 300 1200 (b_intn (drawB c)) →
  randRange 50 150 (a_intn (drawA c)) ≠ TimeoutMs h →
  fst (AsyncTimeout h c w)
  = Returned {| status := StatusRequestTimeout;
                body := BodyError {| E_Mode := "async-timeout";
                                     E_TotalMs := TimeoutMs h;
                                     E_Error := "context deadline exceeded" |} |}
             (entered c + TimeoutMs h * Millisecond).
Proof.
  intros Hctx Hpos Hfit HrA HrB Hu HlongB HneA.
  set (tD := entered c + TimeoutMs h * Millisecond).
  assert (sharedContext Timeout h c = {| ctxDone := Some (tD, DeadlineExceeded) |})
    as Hshared.
  { unfold sharedContext, WithTimeout. rewrite Hctx.
    rewrite Duration_of_ms_small; [done|].
    unfold min_int64, Millisecond in *. lia. }
  assert (entered c < tD) as Hstart by (unfold tD, Millisecond; lia).
  pose proof (handler_merges Timeout h c w) as Hm.
  change (handlerOf Timeout) with AsyncTimeout in Hm. rewrite Hm. clear Hm.
  rewrite <- (SinceMs_ms (entered c) (TimeoutMs h)). fold tD.
  change "context deadline exceeded" with (Error (ErrCtx DeadlineExceeded)).
  change "async-timeout" with (modeOf Timeout).
  assert (ctxDone (sharedContext Timeout h c) = Some (tD, DeadlineExceeded)) as HD.
  { by rewrite Hshared. }
  assert (behind tD (sentByB (taskB Timeout h c w))) as HB.
  { unfold taskB. rewrite goB_result.
    rewrite (ServiceB_after_deadline _ _ tD DeadlineExceeded); try done.
    - simpl. right. done.
    - unfold tD, Millisecond. lia. }
  apply merge_cancelled; [done|done| |by right|by right].
  unfold taskA. rewrite goA_result.
  destruct (ServiceA_before_deadline _ (entered c) tD DeadlineExceeded (drawA c)
              HD Hstart HrA) as [Hearly Hlate].
  destruct (Z.lt_trichotomy (randRange 50 150 (a_intn (drawA c))) (TimeoutMs h))
    as [Hlt|[?|Hgt]]; [|done|].
  - left. rewrite Hearly; simpl; unfold tD, Millisecond; lia.
  - right. rewrite Hlate; [|unfold tD, Millisecond; lia]. simpl. right. done.
Qed.

Lemma AsyncTimeout_deadline_exceeded_witness :
  fst (AsyncTimeout (New {| chan_cap := 20; chan_len := 0 |} 600)
         {| RequestContext := Background; entered := 0;
            drawA := {| a_intn := 50; a_tie := true |};
            drawB := {| b_float := 1 # 2; b_intn := 700; b_tie := true |};
            selPrio := [[CaseB]; [CaseB]]; gateFree := None; gateTie := true |}
         {| metrics := NewMetrics; calls := [] |})
  = Returned {| status := StatusRequestTimeout;
                body := BodyError {| E_Mode := "async-timeout"; E_TotalMs := 600;
                                     E_Error := "context deadline exceeded" |} |}
             (600 * Millisecond).
Proof.
  etransitivity; [apply AsyncTimeout_deadline_exceeded|reflexivity];
    try reflexivity; by vm_compute.
Defined.

(** ** Requests whose context is done on entry *)

Lemma merge_entry_done (mode : string) (ctx : Context) (tD : Z) (e : ctxErr)
    (start tA : Z) (ra : aRes) (arrB : option (Z * bRes)) (sel : list (list scase)) :
  ctxDone ctx = Some (tD, e) → tD <= start → ar_e ra ≠ None →
  ∃ r, mergeAndRespond mode ctx start (Some (tA, ra)) arrB sel = Returned r start ∧
       (status r = StatusRequestTimeout ∨ status r = StatusServiceUnavailable) ∧
       modeField (body r) = mode.
Proof.
  intros HD Hle Herr.
  assert (doneAt ctx = Some tD) as HdA by (unfold doneAt; by rewrite HD).
  destruct (fanIn_spec ctx (Some (tA, ra)) arrB
              (or_introl (mk_is_Some _ _ HdA)) fanInFuel sel start loopInit)
    as (res & T & Hrun & HT & Hmin & Hres); [vm_compute; lia|].
  assert (T = start) as ->.
  { destruct (Z.le_gt_cases T start) as [?|Hgt]; [lia|].
    destruct (Hmin start) as [_ Hf]; [lia|].
    rewrite HdA in Hf. simpl in Hf. apply Z.leb_gt in Hf. lia. }
  unfold mergeAndRespond. rewrite Hrun.
  destruct Hres as [[-> _]|(tD' & e' & HD' & _ & ->)].
  - simpl. rewrite bool_decide_eq_true_2 by (by left). simpl.
    eexists. split; [done|]. split; [by right|done].
  - simpl. eexists. split; [done|]. split; [by left|done].
Qed.

Lemma SinceMs_same (t : Z) : SinceMs t t = 0.
Proof. unfold SinceMs, Milliseconds. by rewrite Z.sub_diag. Qed.

(** X8: A request whose context is already done when its handler is entered is
    never answered 200.  [Sync] answers 408 with the context's error at
    once and does not call service B.  A concurrent handler answers at once
    too, 408 or 503 according to what its [select] takes first. *)
Theorem done_on_entry (h : Handlers) (c : GinContext) (w : World)
    (tD : Z) (e : ctxErr) :
  ctxDone (RequestContext c) = Some (tD, e) →
  tD <= entered c →
  Intn_ok 101 (a_intn (drawA c)) →
  (fst (Sync h c w)
   = Returned {| status := StatusRequestTimeout;
                 body := BodyError {| E_Mode := "sync"; E_TotalMs := 0;
                                      E_Error := Error (ErrCtx e) |} |} (entered c) ∧
   calls (snd (Sync h c w)) = SvcA :: calls w) ∧
  ∀ s, ∃ r, fst (handlerOf s h c w) = Returned r (entered c) ∧
            (status r = StatusRequestTimeout ∨ status r = StatusServiceUnavailable) ∧
            modeField (body r) = modeOf s.
Proof.
  intros HD Hle HrA. split.
  - split.
    + rewrite Sync_answer. cbv zeta.
      rewrite (ServiceA_entry_done _ _ tD e) by done.
      unfold respondErr. by rewrite SinceMs_same.
    + unfold Sync, mbind, M_bind, mret, M_ret.
      pose proof (callServiceA_result (RequestContext c) (entered c) (drawA c) w) as HA.
      pose proof (callServiceA_world (RequestContext c) (entered c) (drawA c) w) as [Hc _].
      rewrite (ServiceA_entry_done _ _ tD e) in HA by done.
      destruct (callServiceA _ _ _ w) as [[[a eA'] t1] w1]. simpl in *.
      by injection HA as -> -> ->.
  - intros s. rewrite handler_merges.
    assert (∃ tD' e', ctxDone (sharedContext s h c) = Some (tD', e') ∧ tD' <= entered c)
      as (tD' & e' & HD' & Hle').
    { destruct s; try (exists tD, e; by split).
      unfold sharedContext, WithTimeout. rewrite HD. eexists _, _. split; [done|]. lia. }
    unfold taskA. rewrite goA_result.
    rewrite (ServiceA_entry_done _ _ tD' e') by done.
    by apply (merge_entry_done _ _ tD' e').
Qed.

Lemma done_on_entry_witness :
  calls (snd (Sync (New {| chan_cap := 20; chan_len := 0 |} 600)
           {| RequestContext := {| ctxDone := Some (0, Canceled) |}; entered := 5;
              drawA := {| a_intn := 50; a_tie := true |};
              drawB := {| b_float := 1 # 2; b_intn := 700; b_tie := true |};
              selPrio := []; gateFree := None; gateTie := true |}
           {| metrics := NewMetrics; calls := [] |})) = [SvcA].
Proof.
  destruct (done_on_entry (New {| chan_cap := 20; chan_len := 0 |} 600)
           {| RequestContext := {| ctxDone := Some (0, Canceled) |}; entered := 5;
              drawA := {| a_intn := 50; a_tie := true |};
              drawB := {| b_float := 1 # 2; b_intn := 700; b_tie := true |};
              selPrio := []; gateFree := None; gateTie := true |}
           {| metrics := NewMetrics; calls := [] |} 0 Canceled) as [[_ H] _];
    [reflexivity|by vm_compute|by vm_compute|exact H].
Defined.



(** ** What the handlers answer and what the middleware counts *)

Lemma callServiceA_front (ctx : Context) (now : Z) (dr : drawsA) (w : World) :
  front (snd (callServiceA ctx now dr w)) = front w.
Proof.
  unfold callServiceA, front. unfold_M. simpl.
  destruct (ServiceA ctx now dr) as [[d [e|]] t]; done.
Qed.

Lemma callServiceB_front (ctx : Context) (now : Z) (dr : drawsB) (w : World) :
  front (snd (callServiceB ctx now dr w)) = front w.
Proof.
  unfold callServiceB, front. unfold_M. simpl.
  destruct (ServiceB ctx now dr) as [[d [e|]] t]; done.
Qed.

Lemma goA_front (ctx : Context) (start : Z) (dr : drawsA) (w : World) :
  front (snd (goA ctx start dr w)) = front w.
Proof.
  unfold goA, mbind, M_bind, mret, M_ret.
  pose proof (callServiceA_front ctx start dr w) as H.
  by destruct (callServiceA ctx start dr w) as [[[d e] t] w1].
Qed.

Lemma goB_front (ctx : Context) (start : Z) (dr : drawsB) (w : World) :
  front (snd (goB ctx start dr w)) = front w.
Proof.
  unfold goB, mbind, M_bind, mret, M_ret.
  pose proof (callServiceB_front ctx start dr w) as H.
  by destruct (callServiceB ctx start dr w) as [[[d e] t] w1].
Qed.

Lemma goB_limited_front (ctx : Context) (start : Z) (free : option Z)
    (tie : bool) (dr : drawsB) (w : World) :
  front (snd (goB_limited ctx start free tie dr w)) = front w.
Proof.
  assert (∀ s,
    front (snd ((record_SemWaitB (SinceMs start s) ;;
          '(d, e, t) ← callServiceB ctx s dr;
          mret {| sentB := Some (t, {| br_d := d; br_e := e |}); held := Some (s, t) |}) w))
    = front w) as Hacq.
  { intros s. unfold mbind, M_bind, mret, M_ret, record_SemWaitB.
    set (w1 := {| metrics := _; calls := calls w |}).
    pose proof (callServiceB_front ctx s dr w1) as H.
    by destruct (callServiceB ctx s dr w1) as [[[d e] t] w2]. }
  unfold goB_limited.
  destruct (Z.max start <$> free) as [s|], (Z.max start <$> doneAt ctx) as [t|];
    try done; repeat case_match; done.
Qed.

Lemma Sync_front (h : Handlers) (c : GinContext) (w : World) :
  front (snd (Sync h c w)) = front w.
Proof.
  unfold Sync, mbind, M_bind, mret, M_ret.
  pose proof (callServiceA_front (RequestContext c) (entered c) (drawA c) w) as HA.
  destruct (callServiceA _ _ _ w) as [[[a [e|]] t1] w1]; [done|].
  pose proof (callServiceB_front (RequestContext c) t1 (drawB c) w1) as HB.
  destruct (callServiceB _ _ _ w1) as [[[b [e|]] t2] w2]; simpl in *; congruence.
Qed.

Lemma concurrent_front (s : strategy) (h : Handlers) (c : GinContext) (w : World) :
  front (snd (handlerOf s h c w)) = front w.
Proof.
  destruct s; unfold handlerOf;
    [unfold Async|unfold AsyncLimited|unfold AsyncTimeout];
    unfold mbind, M_bind, mret, M_ret.
  - pose proof (goA_front (RequestContext c) (entered c) (drawA c) w) as HA.
    destruct (goA _ _ _ w) as [arrA w1].
    pose proof (goB_front (RequestContext c) (entered c) (drawB c) w1) as HB.
    destruct (goB _ _ _ w1) as [arrB w2]. simpl in *. congruence.
  - pose proof (goA_front (RequestContext c) (entered c) (drawA c) w) as HA.
    destruct (goA _ _ _ w) as [arrA w1].
    pose proof (goB_limited_front (RequestContext c) (entered c) (gateFree c)
                  (gateTie c) (drawB c) w1) as HB.
    destruct (goB_limited _ _ _ _ _ w1) as [lb w2]. simpl in *. congruence.
  - set (ctx := WithTimeout _ _ _).
    pose proof (goA_front ctx (entered c) (drawA c) w) as HA.
    destruct (goA _ _ _ w) as [arrA w1].
    pose proof (goB_front ctx (entered c) (drawB c) w1) as HB.
    destruct (goB _ _ _ w1) as [arrB w2]. simpl in *. congruence.
Qed.

(** When the loop leaves through its [Done] case, [ctx.Err()] is an error. *)
Lemma fanIn_done_error (ctx : Context) (arrA : option (Z * aRes))
    (arrB : option (Z * bRes)) (fuel : nat) :
  ∀ (sel : list (list scase)) (now : Z) (v : loopVars) (err : option error) (T : Z),
    fanIn fuel ctx arrA arrB sel now v = Ret (DoneFired err, T) → is_Some err.
Proof.
  induction fuel as [|fuel IH]; intros sel now v err T; cbn [fanIn];
    destruct (gotA v && gotB v); try done.
  destruct (selectOnce ctx arrA arrB (hd [] sel) now v) as [t v'|err' t|] eqn:Hp;
    [apply IH| |done].
  intros [= <- <-]. revert Hp. unfold selectOnce.
  destruct (selectAt _ _ _ _) as [[t0 parked]|]; [|done].
  match goal with |- context [pick _ ?r] => set (ready := r) end.
  destruct (pick (hd [] sel) ready) as [[]|] eqn:Hc.
  - by destruct arrA as [[? ?]|].
  - by destruct arrA as [[? ?]|], arrB as [[? ?]|].
  - apply pick_ready in Hc. simpl in Hc.
    apply leb_opt_true in Hc as (x & Hx & Hxt).
    unfold doneAt in Hx. destruct (ctxDone ctx) as [[tD e]|] eqn:HD; simplify_eq/=.
    intros Heq.
    assert (SawDone (Err ctx t0) t0 = SawDone err' t) as [= <- <-].
    { by destruct arrA as [[? ?]|], arrB as [[? ?]|]. }
    rewrite (Err_at_done ctx x e t0) by done. by eexists.
  - done.
Qed.

Lemma merge_answer (mode : string) (ctx : Context) (start : Z)
    (arrA : option (Z * aRes)) (arrB : option (Z * bRes)) (sel : list (list scase)) :
  match mergeAndRespond mode ctx start arrA arrB sel with
  | Returned r t => modeField (body r) = mode ∧ is_Some (kindOf r)
  | Panicked => False
  | Blocked => True
  end.
Proof.
  unfold mergeAndRespond.
  destruct (fanIn fanInFuel ctx arrA arrB sel start loopInit) as [[[v|err] t]| |] eqn:Hf;
    [| |done|done].
  - destruct (bool_decide _); simpl; by split.
  - apply fanIn_done_error in Hf as [e ->]. simpl. by split.
Qed.

Lemma Sync_answer_kind (h : Handlers) (c : GinContext) (w : World) :
  match fst (Sync h c w) with
  | Returned r t => modeField (body r) = "sync" ∧ is_Some (kindOf r)
  | _ => False
  end.
Proof.
  rewrite Sync_answer. cbv zeta.
  destruct (ServiceA _ _ _) as [[a [e|]] t1]; simpl; [by split|].
  destruct (ServiceB _ _ _) as [[b [e|]] t2]; simpl; by split.
Qed.

Lemma merge_live (mode : string) (ctx : Context) (start : Z)
    (arrA : option (Z * aRes)) (arrB : option (Z * bRes)) (sel : list (list scase)) :
  is_Some (doneAt ctx) ∨ (is_Some arrA ∧ is_Some arrB) →
  mergeAndRespond mode ctx start arrA arrB sel ≠ Blocked.
Proof.
  intros Hlive.
  destruct (fanIn_spec ctx arrA arrB Hlive fanInFuel sel start loopInit)
    as (res & T & Hrun & _ & _ & Hres); [vm_compute; lia|].
  unfold mergeAndRespond. rewrite Hrun.
  destruct Hres as [[-> _]|(tD & e & _ & _ & ->)]; simpl; [|done].
  by destruct (bool_decide _).
Qed.

(** The unbounded and the timeout strategy always answer. *)
Lemma unguarded_answers (s : strategy) (h : Handlers) (c : GinContext) (w : World) :
  s ≠ Bounded → fst (handlerOf s h c w) ≠ Blocked.
Proof.
  intros Hs. rewrite handler_merges. apply merge_live. right.
  unfold taskA, taskB. rewrite goA_result.
  destruct s; [|done|]; rewrite goB_result; split; by eexists.
Qed.

(** X10: The routes of [NewRouter].  The liveness endpoint answers 200 ["ok"] and
    is not instrumented.  Each strategy is registered at the path made of a
    slash and the endpoint name it is instrumented under, and that name is
    the [mode] of every response of its handler; the status of a response
    is 200, 408 or 503; no handler panics, and only the bounded strategy
    can fail to answer.  Nothing else is registered. *)
Theorem routes_answers (h : Handlers) :
  (∀ path reg, (path, reg) ∈ routes h →
     match reg with
     | Plain reply =>
         path = "/health" ∧ reply = (StatusOK, "ok") ∧ NewRouter h path = None
     | Wrapped ep g =>
         path = "/" +:+ ep ∧ NewRouter h path = Some (Instrument ep g) ∧
         ∀ c w, match fst (g c w) with
                | Returned r t => modeField (body r) = ep ∧ is_Some (kindOf r)
                | Panicked => False
                | Blocked => ep = "async-limited"
                end
     end) ∧
  (∀ path f, NewRouter h path = Some f →
     ∃ ep g, (path, Wrapped ep g) ∈ routes h ∧ f = Instrument ep g).
Proof.
  split.
  - intros path reg Hin. unfold routes in Hin.
    rewrite !elem_of_cons, elem_of_nil in Hin.
    destruct Hin as [H|[H|[H|[H|[H|[]]]]]]; injection H as -> ->.
    + done.
    + split; [done|]. split; [done|]. intros c w.
      pose proof (Sync_answer_kind h c w) as H.
      by destruct (fst (Sync h c w)).
    + split; [done|]. split; [done|]. intros c w.
      pose proof (handler_merges Unbounded h c w) as Hm.
      pose proof (unguarded_answers Unbounded h c w ltac:(done)) as Hnb.
      pose proof (merge_answer (modeOf Unbounded) (sharedContext Unbounded h c)
                    (entered c) (taskA Unbounded h c w) (taskB Unbounded h c w)
                    (selPrio c)) as Ha.
      rewrite <- Hm in Ha. change (handlerOf Unbounded) with Async in *.
      by destruct (fst (Async h c w)).
    + split; [done|]. split; [done|]. intros c w.
      pose proof (handler_merges Bounded h c w) as Hm.
      pose proof (merge_answer (modeOf Bounded) (sharedContext Bounded h c)
                    (entered c) (taskA Bounded h c w) (taskB Bounded h c w)
                    (selPrio c)) as Ha.
      rewrite <- Hm in Ha. change (handlerOf Bounded) with AsyncLimited in *.
      by destruct (fst (AsyncLimited h c w)).
    + split; [done|]. split; [done|]. intros c w.
      pose proof (handler_merges Timeout h c w) as Hm.
      pose proof (unguarded_answers Timeout h c w ltac:(done)) as Hnb.
      pose proof (merge_answer (modeOf Timeout) (sharedContext Timeout h c)
                    (entered c) (taskA Timeout h c w) (taskB Timeout h c w)
                    (selPrio c)) as Ha.
      rewrite <- Hm in Ha. change (handlerOf Timeout) with AsyncTimeout in *.
      by destruct (fst (AsyncTimeout h c w)).
  - intros path f. unfold NewRouter, routes.
    repeat case_decide; intros [= <-]; subst path; eexists _, _;
      (split; [|reflexivity]); set_solver.
Qed.

(** [Instrument] around a handler that leaves the middleware's instruments
    alone. *)
Lemma Instrument_front (ep : string) (next : HandlerFunc) (c : GinContext) (w : World) :
  (∀ w0, front (snd (next c w0)) = front w0) →
  let o := fst (Instrument ep next c w) in
  let w' := snd (Instrument ep next c w) in
  o = fst (next c (snd (on_inflight (IncInflight ep) w))) ∧
  match o with
  | Returned r t =>
      front w'
      = (counter_Add (ep, status r) 1 (HTTPRequestsTotal (metrics w)),
         (ep, status r, SinceMs (entered c) t) :: HTTPRequestDuration (metrics w),
         DecInflight ep (IncInflight ep (inflight (metrics w))))
  | Panicked =>
      front w'
      = (HTTPRequestsTotal (metrics w), HTTPRequestDuration (metrics w),
         DecInflight ep (IncInflight ep (inflight (metrics w))))
  | Blocked =>
      front w'
      = (HTTPRequestsTotal (metrics w), HTTPRequestDuration (metrics w),
         IncInflight ep (inflight (metrics w)))
  end.
Proof.
  intros Hframe. cbv zeta. unfold Instrument, mbind, M_bind, mret, M_ret.
  unfold on_inflight, record_HTTP. simpl.
  set (w1 := {| metrics := set_inflight (IncInflight ep) (metrics w); calls := calls w |}).
  specialize (Hframe w1).
  destruct (next c w1) as [o w2]. simpl.
  unfold front in *. simpl in *. injection Hframe as H1 H2 H3.
  destruct o as [r t| |]; simpl; rewrite ?H1, ?H2, ?H3; done.
Qed.

(** X11: A request to a registered strategy, through [Instrument].  When the
    handler answers, the request counter of the endpoint and of the status
    answered goes up by one, one latency is recorded under the same two
    labels, from entry to answer, and the in-flight map has gone up and
    down.  When the handler never answers (the bounded strategy only), the
    request is not counted and the in-flight counter stays raised. *)
Theorem registered_request_counted (h : Handlers) (path ep : string)
    (g : HandlerFunc) (c : GinContext) (w : World) :
  (path, Wrapped ep g) ∈ routes h →
  let w' := snd (Instrument ep g c w) in
  match fst (Instrument ep g c w) with
  | Returned r t =>
      HTTPRequestsTotal (metrics w')
      = <[(ep, status r) :=
            wrap64 (default 0 (HTTPRequestsTotal (metrics w) !! (ep, status r)) + 1)]>
          (HTTPRequestsTotal (metrics w)) ∧
      HTTPRequestDuration (metrics w')
      = (ep, status r, SinceMs (entered c) t) :: HTTPRequestDuration (metrics w) ∧
      inflight (metrics w') = DecInflight ep (IncInflight ep (inflight (metrics w))) ∧
      is_Some (kindOf r)
  | Panicked => False
  | Blocked =>
      ep = "async-limited" ∧
      HTTPRequestsTotal (metrics w') = HTTPRequestsTotal (metrics w) ∧
      HTTPRequestDuration (metrics w') = HTTPRequestDuration (metrics w) ∧
      inflight (metrics w') = IncInflight ep (inflight (metrics w))
  end.
Proof.
  intros Hin. cbv zeta.
  assert (∀ w0, front (snd (g c w0)) = front w0) as Hframe.
  { unfold routes in Hin. rewrite !elem_of_cons, elem_of_nil in Hin.
    destruct Hin as [H|[H|[H|[H|[H|[]]]]]]; [done|..];
      injection H as -> -> ->; intros w0.
    - apply Sync_front.
    - apply (concurrent_front Unbounded).
    - apply (concurrent_front Bounded).
    - apply (concurrent_front Timeout). }
  assert (∀ w0, match fst (g c w0) with
                | Returned r t => is_Some (kindOf r)
                | Panicked => False
                | Blocked => ep = "async-limited"
                end) as Hkind.
  { intros w0. unfold routes in Hin. rewrite !elem_of_cons, elem_of_nil in Hin.
    destruct Hin as [H|[H|[H|[H|[H|[]]]]]]; [done|..]; injection H as -> -> ->.
    - pose proof (Sync_answer_kind h c w0) as H.
      destruct (fst (Sync h c w0)); tauto.
    - pose proof (handler_merges Unbounded h c w0) as Hm.
      pose proof (unguarded_answers Unbounded h c w0 ltac:(done)) as Hnb.
      pose proof (merge_answer (modeOf Unbounded) (sharedContext Unbounded h c)
                    (entered c) (taskA Unbounded h c w0) (taskB Unbounded h c w0)
                    (selPrio c)) as Ha.
      rewrite <- Hm in Ha. change (handlerOf Unbounded) with Async in *.
      destruct (fst (Async h c w0)); tauto.
    - pose proof (handler_merges Bounded h c w0) as Hm.
      pose proof (merge_answer (modeOf Bounded) (sharedContext Bounded h c)
                    (entered c) (taskA Bounded h c w0) (taskB Bounded h c w0)
                    (selPrio c)) as Ha.
      rewrite <- Hm in Ha. change (handlerOf Bounded) with AsyncLimited in *.
      destruct (fst (AsyncLimited h c w0)); tauto.
    - pose proof (handler_merges Timeout h c w0) as Hm.
      pose proof (unguarded_answers Timeout h c w0 ltac:(done)) as Hnb.
      pose proof (merge_answer (modeOf Timeout) (sharedContext Timeout h c)
                    (entered c) (taskA Timeout h c w0) (taskB Timeout h c w0)
                    (selPrio c)) as Ha.
      rewrite <- Hm in Ha. change (handlerOf Timeout) with AsyncTimeout in *.
      destruct (fst (AsyncTimeout h c w0)); tauto. }
  destruct (Instrument_front ep g c w Hframe) as [Ho Hfront].
  specialize (Hkind (snd (on_inflight (IncInflight ep) w))). rewrite <- Ho in Hkind.
  unfold front in Hfront.
  destruct (fst (Instrument ep g c w)) as [r t| |]; [| done |];
    injection Hfront as H1 H2 H3; rewrite H1, H2, H3; done.
Qed.

Lemma registered_request_counted_witness :
  HTTPRequestsTotal (metrics (snd
    (Instrument "sync" (Sync (New {| chan_cap := 20; chan_len := 0 |} 600))
       {| RequestContext := Background; entered := 0;
          drawA := {| a_intn := 50; a_tie := true |};
          drawB := {| b_float := 1 # 100; b_intn := 700; b_tie := true |};
          selPrio := []; gateFree := None; gateTie := true |}
       {| metrics := NewMetrics; calls := [] |})))
  = <[("sync", 503) := 1]> ∅.
Proof.
  pose proof (registered_request_counted
    (New {| chan_cap := 20; chan_len := 0 |} 600) "/sync" "sync"
    (Sync (New {| chan_cap := 20; chan_len := 0 |} 600))
    {| RequestContext := Background; entered := 0;
       drawA := {| a_intn := 50; a_tie := true |};
       drawB := {| b_float := 1 # 100; b_intn := 700; b_tie := true |};
       selPrio := []; gateFree := None; gateTie := true |}
    {| metrics := NewMetrics; calls := [] |}) as H.
  cbv zeta in H.
  assert (fst (Instrument "sync" (Sync (New {| chan_cap := 20; chan_len := 0 |} 600))
       {| RequestContext := Background; entered := 0;
          drawA := {| a_intn := 50; a_tie := true |};
          drawB := {| b_float := 1 # 100; b_intn := 700; b_tie := true |};
          selPrio := []; gateFree := None; gateTie := true |}
       {| metrics := NewMetrics; calls := [] |})
    = Returned {| status := 503;
                  body := BodyError {| E_Mode := "sync"; E_TotalMs := 100;
                                       E_Error := "service B simulated failure" |} |}
               (100 * Millisecond)) as Ho by (by vm_compute).
  rewrite Ho in H. destruct H as [H _]; [unfold routes; set_solver|].
  rewrite H. reflexivity.
Defined.

(** ** More on the semaphore *)

Lemma total_lookup_zero {A} (f : A → Z) (l : list A) (i : nat) (x : A) :
  (∀ y, 0 <= f y <= 1) → l !! i = Some x → f x = 0 →
  total f l <= Z.of_nat (length l) - 1.
Proof.
  intros Hunit. revert i. induction l as [|z l IH]; intros [|i] Hi Hx; simplify_eq/=.
  - pose proof (total_bounds f Hunit l). unfold total in *. lia.
  - specialize (IH i Hi Hx). specialize (Hunit z). unfold total in *. lia.
Qed.

(** X12: A goroutine waiting on its [select] is refused by the semaphore exactly
    when as many goroutines as the capacity hold a token; otherwise its
    send proceeds and the occupancy goes up by one.  With a capacity of at
    least the number of requests the send is never refused. *)
Theorem gate_refuses_when_full (capacity : Z) (sem0 : chan) (n : nat)
    (sched : list (nat * action)) (s : sys) (i : nat) (t : task) :
  make_chan capacity = Some sem0 →
  exec sched (boot sem0 n) = Some s →
  tasks s !! i = Some t →
  pc t = AtSelect →
  (sys_step (i, SendSem) s = None ↔ holders s = capacity) ∧
  (holders s < capacity →
     ∃ s', sys_step (i, SendSem) s = Some s' ∧
           chan_len (sem s') = chan_len (sem s) + 1 ∧
           holders s' = holders s + 1) ∧
  (Z.of_nat n <= capacity → holders s < capacity).
Proof.
  intros Hmake Hrun Ht Hpc.
  pose proof (exec_inv capacity sched _ s (boot_inv capacity sem0 n Hmake) Hrun)
    as (Hcap & Hlen & Hrange & Hok).
  assert (sys_step (i, SendSem) s
          = if chan_len (sem s) <? chan_cap (sem s)
            then Some {| sem := {| chan_cap := chan_cap (sem s);
                                   chan_len := chan_len (sem s) + 1 |};
                         tasks := <[i := {| pc := Holding; cancelled := cancelled t;
                                            bCh := bCh t;
                                            trace := trace t ++ [Acquired] |}]> (tasks s) |}
            else None) as Hstep.
  { unfold sys_step. simpl. rewrite Ht. simpl.
    unfold task_step, chan_send. rewrite Hpc. by destruct (_ <? _). }
  rewrite Hstep, Hcap, <- Hlen.
  split; [|split].
  - destruct (Z.ltb_spec (chan_len (sem s)) capacity); split; intros; try done; lia.
  - intros Hroom. destruct (Z.ltb_spec (chan_len (sem s)) capacity); [|lia].
    eexists. split; [done|]. simpl. split; [done|].
    unfold holders. simpl. rewrite (total_insert _ _ _ t _ Ht).
    unfold holds at 2 3. simpl. rewrite Hpc. fold (holders s). lia.
  - intros Hn. rewrite Hlen.
    pose proof (total_lookup_zero holds (tasks s) i t holds_unit Ht) as Hz.
    rewrite (exec_length _ _ _ Hrun) in Hz. unfold boot in Hz. simpl in Hz.
    rewrite length_replicate in Hz. unfold holders.
    assert (holds t = 0) by (unfold holds; by rewrite Hpc). lia.
Qed.

Lemma gate_refuses_when_full_witness :
  ∃ s, exec [(0, SendSem)]%nat (boot {| chan_cap := 1; chan_len := 0 |} 2) = Some s ∧
       sys_step (1%nat, SendSem) s = None.
Proof.
  eexists. split; [reflexivity|].
  match goal with |- sys_step _ ?x = _ => set (s := x) end.
  destruct (gate_refuses_when_full 1 {| chan_cap := 1; chan_len := 0 |} 2
              [(0, SendSem)]%nat s 1 spawn) as [[_ H] _];
    [reflexivity|reflexivity|reflexivity|reflexivity|].
  apply H. reflexivity.
Defined.

(** X13: With a capacity of zero no goroutine ever takes a token: every send on
    the semaphore is refused, and a goroutine has logged nothing or one
    denial. *)
Theorem gate_of_capacity_zero (sem0 : chan) (n : nat)
    (sched : list (nat * action)) (s : sys) :
  make_chan 0 = Some sem0 →
  exec sched (boot sem0 n) = Some s →
  sem s = sem0 ∧
  ∀ i t, tasks s !! i = Some t →
    (trace t = [] ∨ trace t = [Denied]) ∧
    sys_step (i, SendSem) s = None.
Proof.
  intros Hmake Hrun. injection Hmake as <-.
  assert (∀ sched s0 s1,
            sem s0 = {| chan_cap := 0; chan_len := 0 |} → Forall untouched (tasks s0) →
            exec sched s0 = Some s1 →
            sem s1 = {| chan_cap := 0; chan_len := 0 |} ∧ Forall untouched (tasks s1))
    as Hinv.
  { clear. induction sched as [|[i a] sched IH]; intros s0 s1 Hsem Hun Hrun.
    - by simplify_eq/=.
    - simpl in Hrun. destruct (sys_step (i, a) s0) as [s'|] eqn:Hstep; [|done].
      simpl in Hrun. apply (IH s' s1); [| |done].
      + unfold sys_step in Hstep. simpl in Hstep.
        destruct (tasks s0 !! i) as [t|]; [|done]. simpl in Hstep.
        destruct (task_step a (sem s0) t) as [[sem' t']|] eqn:Hts; [|done].
        simpl in Hstep. injection Hstep as <-. simpl.
        rewrite Hsem in Hts. unfold task_step, chan_send, chan_recv in Hts.
        destruct a, (pc t); simpl in Hts; try done;
          repeat (match type of Hts with
                  | context [match ?x with _ => _ end] => destruct x
                  end; simpl in Hts; try done);
          by injection Hts as <- <-.
      + unfold sys_step in Hstep. simpl in Hstep.
        destruct (tasks s0 !! i) as [t|] eqn:Ht; [|done]. simpl in Hstep.
        destruct (task_step a (sem s0) t) as [[sem' t']|] eqn:Hts; [|done].
        simpl in Hstep. injection Hstep as <-. simpl.
        apply Forall_insert; [done|].
        pose proof (Forall_lookup_1 _ _ _ _ Hun Ht) as Hut.
        rewrite Hsem in Hts. unfold task_step, chan_send, chan_recv in Hts.
        unfold untouched in *.
        destruct a, (pc t) eqn:Hpc; simpl in Hts; try done;
          repeat (match type of Hts with
                  | context [match ?x with _ => _ end] => destruct x
                  end; simpl in Hts; try done);
          injection Hts as <- <-; simpl; rewrite ?Hpc, ?Hut; done. }
  destruct (Hinv sched (boot {| chan_cap := 0; chan_len := 0 |} n) s) as [Hsem Hun];
    [done|by apply Forall_replicate|done|].
  split; [done|]. intros i t Ht.
  pose proof (Forall_lookup_1 _ _ _ _ Hun Ht) as Hut. unfold untouched in Hut.
  split.
  - destruct (pc t); tauto.
  - unfold sys_step. simpl. rewrite Ht, Hsem. simpl.
    unfold task_step, chan_send. by destruct (pc t).
Qed.

Lemma gate_of_capacity_zero_witness :
  ∃ s, exec [(0, CtxFires Canceled); (0, SeeDone)]%nat
            (boot {| chan_cap := 0; chan_len := 0 |} 2) = Some s ∧
       sys_step (1%nat, SendSem) s = None.
Proof.
  eexists. split; [reflexivity|].
  match goal with |- sys_step _ ?x = _ => set (s := x) end.
  destruct (gate_of_capacity_zero {| chan_cap := 0; chan_len := 0 |} 2
              [(0, CtxFires Canceled); (0, SeeDone)]%nat s eq_refl eq_refl) as [_ H].
  by destruct (H 1%nat spawn eq_refl) as [_ ?].
Defined.

(** X14: No goroutine of the bounded strategy can be left behind.  One that
    waits on its [select] leaves as soon as its context is done: it logs a
    denial, sends the context's error on [bCh] and exits, and neither the
    semaphore nor any other goroutine is touched.  One that is past its
    [select] can always run to its exit by itself, whether or not the
    handler ever receives from [bCh]. *)
Theorem goroutine_reaches_exit (capacity : Z) (sem0 : chan) (n : nat)
    (sched : list (nat * action)) (s : sys) (i : nat) (t : task) :
  make_chan capacity = Some sem0 →
  exec sched (boot sem0 n) = Some s →
  tasks s !! i = Some t →
  (pc t = AtSelect → ∀ e, ∃ s' t',
     exec [(i, CtxFires e); (i, SeeDone); (i, SendResult)] s = Some s' ∧
     sem s' = sem s ∧ tasks s' = <[i := t']> (tasks s) ∧
     pc t' = Exited ∧ trace t' = [Denied] ∧
     bCh t' = Some {| br_d := zeroB;
                      br_e := Some (ErrCtx (default e (cancelled t))) |}) ∧
  (pc t ≠ AtSelect → ∀ d e, ∃ s' t',
     exec ((λ a, (i, a)) <$> toExit (pc t) d e) s = Some s' ∧
     tasks s' !! i = Some t' ∧ pc t' = Exited).
Proof.
  intros Hmake Hrun Ht.
  pose proof (exec_inv capacity sched _ s (boot_inv capacity sem0 n Hmake) Hrun) as Hinv.
  pose proof Hinv as (Hcap & Hlen & Hrange & Hok).
  pose proof (Forall_lookup_1 _ _ _ _ Hok Ht) as Hokt. unfold task_ok in Hokt.
  split.
  - intros Hpc e. rewrite Hpc in Hokt. destruct Hokt as [Htr Hb].
    set (e' := default e (cancelled t)).
    assert ((if cancelled t is Some e0 then Some e0 else Some e) = Some e') as Hce.
    { unfold e'. by destruct (cancelled t). }
    set (t1 := {| pc := AtSelect; cancelled := Some e'; bCh := None; trace := [] |}).
    set (t2 := {| pc := Refused; cancelled := Some e'; bCh := None;
                  trace := [Denied] |}).
    set (t3 := {| pc := Exited; cancelled := Some e';
                  bCh := Some {| br_d := zeroB; br_e := Some (ErrCtx e') |};
                  trace := [Denied] |}).
    destruct (sys_step_at i (CtxFires e) s t t1 (sem s) Ht) as [Hs1 Hl1].
    { unfold task_step. by rewrite Hce, Hpc, Hb, Htr. }
    set (s1 := {| sem := sem s; tasks := <[i := t1]> (tasks s) |}) in *.
    destruct (sys_step_at i SeeDone s1 t1 t2 (sem s) Hl1) as [Hs2 Hl2]; [done|].
    set (s2 := {| sem := sem s; tasks := <[i := t2]> (tasks s1) |}) in *.
    destruct (sys_step_at i SendResult s2 t2 t3 (sem s) Hl2) as [Hs3 Hl3]; [done|].
    exists {| sem := sem s; tasks := <[i := t3]> (tasks s2) |}, t3.
    split.
    { change (exec [(i, CtxFires e); (i, SeeDone); (i, SendResult)] s)
        with (sys_step (i, CtxFires e) s ≫= λ sa,
              sys_step (i, SeeDone) sa ≫= λ sb,
              sys_step (i, SendResult) sb ≫= λ sc, Some sc).
      rewrite Hs1. simpl. fold s1. rewrite Hs2. simpl. fold s2. by rewrite Hs3. }
    split; [done|]. split.
    { simpl. by rewrite !list_insert_insert_eq. }
    done.
  - intros Hpc d e.
    destruct (pc t) as [| |r| | |] eqn:Hp; [done| | | | |]; simpl.
    + edestruct (release_follows capacity s i t d e Hinv Ht) as (s' & t' & H1 & H2 & H3 & _).
      { unfold holds. by rewrite Hp. }
      rewrite Hp in H1. eauto.
    + edestruct (release_follows capacity s i t d e Hinv Ht) as (s' & t' & H1 & H2 & H3 & _).
      { unfold holds. by rewrite Hp. }
      rewrite Hp in H1. eauto.
    + edestruct (release_follows capacity s i t d e Hinv Ht) as (s' & t' & H1 & H2 & H3 & _).
      { unfold holds. by rewrite Hp. }
      rewrite Hp in H1. eauto.
    + destruct Hokt as [Htr Hb].
      destruct (sys_step_at i SendResult s t
                  {| pc := Exited; cancelled := cancelled t;
                     bCh := Some {| br_d := zeroB; br_e := ErrCtx <$> cancelled t |};
                     trace := trace t |} (sem s) Ht) as [Hs1 Hl1].
      { unfold task_step. by rewrite Hp, Hb. }
      eexists _, _. rewrite Hs1. simpl. split; [done|]. split; [exact Hl1|done].
    + exists s, t. split; [done|]. by split.
Qed.

Lemma goroutine_reaches_exit_witness :
  ∃ s s' t',
    exec [(0, SendSem)]%nat (boot {| chan_cap := 1; chan_len := 0 |} 2) = Some s ∧
    exec [(1, CtxFires DeadlineExceeded); (1, SeeDone); (1, SendResult)]%nat s = Some s' ∧
    sem s' = sem s ∧ tasks s' = <[1%nat := t']> (tasks s) ∧ trace t' = [Denied].
Proof.
  eexists. 
  match goal with |- ∃ s' t', exec _ ?b = Some ?x ∧ _ =>
    assert (exec [(0, SendSem)]%nat b
            = Some {| sem := {| chan_cap := 1; chan_len := 1 |};
                      tasks := [ {| pc := Holding; cancelled := None; bCh := None;
                                    trace := [Acquired] |}; spawn ] |}) as Hrun
      by reflexivity
  end.
  destruct (goroutine_reaches_exit 1 {| chan_cap := 1; chan_len := 0 |} 2
              [(0, SendSem)]%nat _ 1 spawn eq_refl Hrun eq_refl) as [H _].
  destruct (H eq_refl DeadlineExceeded) as (s' & t' & H1 & H2 & H3 & _ & H5 & _).
  exists s', t'. split; [exact Hrun|]. split; [exact H1|]. by split.
Defined.

(** ** More on the in-flight map *)

Lemma is_Some_Inc (ep k : string) (m : gmap string Z) :
  is_Some (IncInflight ep m !! k) ↔ k = ep ∨ is_Some (m !! k).
Proof.
  unfold IncInflight, LoadOrStore, cell_Add.
  destruct (m !! ep) as [v|] eqn:Hm.
  - rewrite lookup_alter_is_Some. split; [by right|].
    intros [->|?]; [by rewrite Hm|done].
  - rewrite alter_insert_eq, lookup_insert_is_Some.
    destruct (decide (ep = k)) as [->|]; naive_solver.
Qed.

Lemma is_Some_Dec (ep k : string) (m : gmap string Z) :
  is_Some (DecInflight ep m !! k) ↔ is_Some (m !! k).
Proof.
  unfold DecInflight, cell_Add. destruct (m !! ep); [|done].
  apply lookup_alter_is_Some.
Qed.

Lemma hit_unit (ep : string) (r : invocation) : 0 <= hit ep r <= 1.
Proof. unfold hit. case_bool_decide; lia. Qed.

Lemma total_positive {A} (f : A → Z) (l : list A) :
  (∀ y, 0 <= f y <= 1) →
  0 < total f l ↔ ∃ i x, l !! i = Some x ∧ f x = 1.
Proof.
  intros Hunit. induction l as [|z l IH].
  - simpl. split; [lia|]. by intros (i & x & ? & _).
  - rewrite total_cons. pose proof (total_bounds f Hunit l). specialize (Hunit z).
    split.
    + intros Hpos. destruct (decide (f z = 1)) as [Hz|Hz].
      * by exists 0%nat, z.
      * destruct IH as [IH _]. destruct IH as (i & x & Hi & Hx); [lia|].
        by exists (S i), x.
    + intros ([|i] & x & Hi & Hx); simplify_eq/=; [lia|].
      destruct IH as [_ IH]. assert (0 < total f l) by eauto. lia.
Qed.

(** X15: The entries of the in-flight map of a server.  An endpoint has an entry
    exactly when one of its requests has entered its handler; entries are
    never removed.  Once no request is inside a handler, every counter
    reads zero, so the gauge reports zero for each endpoint that was ever
    hit and nothing for the others. *)
Theorem gauges_after_service (eps : list string) (sched : list (nat * iaction))
    (s : server) :
  Z.of_nat (length eps) <= max_int64 →
  serve sched (startServer eps) = Some s →
  (∀ ep, is_Some (observe ep (gauges s)) ↔
         ∃ i r, requests s !! i = Some r ∧ endpoint r = ep ∧ stage r ≠ NotEntered) ∧
  ((∀ i r, requests s !! i = Some r → stage r ≠ InHandler) →
   ∀ ep, observe ep (gauges s) = None ∨ observe ep (gauges s) = Some 0).
Proof.
  intros Hlen Hrun.
  assert (∀ sched s0 s1,
            (∀ ep, is_Some (gauges s0 !! ep) ↔ 0 < total (hit ep) (requests s0)) →
            serve sched s0 = Some s1 →
            ∀ ep, is_Some (gauges s1 !! ep) ↔ 0 < total (hit ep) (requests s1))
    as Hdom.
  { clear. induction sched as [|[i a] sched IH]; intros s0 s1 Hinv Hrun.
    - by simplify_eq/=.
    - simpl in Hrun. destruct (server_step (i, a) s0) as [s'|] eqn:Hstep; [|done].
      simpl in Hrun. apply (IH s' s1); [|done]. clear IH Hrun.
      unfold server_step in Hstep. simpl in Hstep.
      destruct (requests s0 !! i) as [r|] eqn:Hr; [|done]. simpl in Hstep.
      destruct (inv_step a (gauges s0) r) as [[m' r']|] eqn:Hi; [|done].
      simpl in Hstep. injection Hstep as <-. simpl. intros ep.
      rewrite (total_insert _ _ _ r r' Hr).
      pose proof (total_bounds (hit ep) (hit_unit ep) (requests s0)) as Hb.
      pose proof (total_lookup (hit ep) (hit_unit ep) _ _ _ Hr) as Hle.
      specialize (Hinv ep).
      unfold inv_step in Hi. destruct a, (stage r) eqn:Hst; simplify_eq/=.
      + rewrite is_Some_Inc, Hinv. unfold hit in *. simpl. rewrite Hst in *.
        repeat case_bool_decide; naive_solver lia.
      + rewrite is_Some_Dec, Hinv. unfold hit in *. simpl. rewrite Hst in *.
        repeat case_bool_decide; naive_solver lia. }
  assert (∀ ep, is_Some (gauges s !! ep) ↔ 0 < total (hit ep) (requests s)) as Hentries.
  { apply (Hdom sched (startServer eps)); [|done]. intros ep.
    unfold startServer. simpl. rewrite lookup_empty, total_zero.
    - split; [by intros [? ?]|lia].
    - apply Forall_fmap, Forall_true. intros x. unfold hit. simpl.
      by rewrite bool_decide_eq_false_2 by naive_solver. }
  split.
  - intros ep. unfold observe. rewrite Hentries, (total_positive _ _ (hit_unit ep)).
    split.
    + intros (i & r & Hr & Hh). exists i, r. split; [done|].
      unfold hit in Hh. case_bool_decide; [tauto|lia].
    + intros (i & r & Hr & Hep & Hst). exists i, r. split; [done|].
      unfold hit. by rewrite bool_decide_eq_true_2.
  - intros Hout ep.
    assert (Z.of_nat (length (requests (startServer eps))) <= max_int64) as Hlen0.
    { unfold startServer. simpl. by rewrite length_fmap. }
    destruct (serve_invariant sched (startServer eps) s Hlen0
                (startServer_invariant eps) Hrun) as [_ Hinv].
    specialize (Hinv ep). unfold inHandler in Hinv. rewrite total_zero in Hinv.
    + unfold observe, inflight_value in *.
      destruct (gauges s !! ep); simpl in Hinv; [right; by f_equal|by left].
    + apply Forall_lookup_2. intros i r Hr. rewrite inside_stage.
      case_decide; [|done]. case_decide; [|done]. by destruct (Hout i r Hr).
Qed.

Lemma gauges_after_service_witness :
  ∃ s, serve [(0, Enter); (0, Leave)]%nat (startServer ["sync"; "async"]) = Some s ∧
       (observe "sync" (gauges s) = None ∨ observe "sync" (gauges s) = Some 0) ∧
       is_Some (observe "sync" (gauges s)).
Proof.
  eexists. split; [vm_compute; reflexivity|].
  match goal with |- context [gauges ?x] => set (s := x) end.
  destruct (gauges_after_service ["sync"; "async"] [(0, Enter); (0, Leave)]%nat s)
    as [H1 H2]; [by vm_compute|vm_compute; reflexivity|].
  split.
  - apply H2. intros [|[|i]] r Hr; simplify_eq/=; done.
  - apply H1. exists 0%nat, {| endpoint := "sync"; stage := Left |}. by split.
Defined.

(** X16: [IncInflight] and [DecInflight] of one endpoint leave the entries of
    the other endpoints as they are, never remove an entry, and commute
    with the operations of another endpoint. *)
Theorem inflight_other_endpoints (ep ep' : string) (m : gmap string Z) :
  ep ≠ ep' →
  IncInflight ep m !! ep' = m !! ep' ∧
  DecInflight ep m !! ep' = m !! ep' ∧
  dom (IncInflight ep m) = {[ep]} ∪ dom m ∧
  dom (DecInflight ep m) = dom m ∧
  IncInflight ep (IncInflight ep' m) = IncInflight ep' (IncInflight ep m) ∧
  IncInflight ep (DecInflight ep' m) = DecInflight ep' (IncInflight ep m) ∧
  DecInflight ep (DecInflight ep' m) = DecInflight ep' (DecInflight ep m).
Proof.
  intros Hne.
  assert (∀ a b m0, a ≠ b → IncInflight a m0 !! b = m0 !! b) as HI.
  { intros a b m0 Hab. unfold IncInflight, LoadOrStore, cell_Add.
    destruct (m0 !! a).
    - by rewrite lookup_alter_ne.
    - by rewrite alter_insert_eq, lookup_insert_ne. }
  assert (∀ a b m0, a ≠ b → DecInflight a m0 !! b = m0 !! b) as HDc.
  { intros a b m0 Hab. unfold DecInflight, cell_Add.
    destruct (m0 !! a); [|done]. by rewrite lookup_alter_ne. }
  assert (∀ a m0, IncInflight a m0 !! a
                  = Some (wrap64 (default 0 (m0 !! a) + 1))) as HIa.
  { intros a m0. unfold IncInflight, LoadOrStore, cell_Add.
    destruct (m0 !! a) eqn:Hm.
    - by rewrite lookup_alter_eq, Hm.
    - by rewrite alter_insert_eq, lookup_insert_eq. }
  assert (∀ a m0, DecInflight a m0 !! a = (λ v, wrap64 (v + -1)) <$> m0 !! a) as HDa.
  { intros a m0. unfold DecInflight, cell_Add.
    destruct (m0 !! a) eqn:Hm.
    - by rewrite lookup_alter_eq, Hm.
    - by rewrite Hm. }
  split; [by apply HI|]. split; [by apply HDc|].
  split.
  { apply set_eq. intros k. rewrite elem_of_union, elem_of_singleton, !elem_of_dom.
    rewrite is_Some_Inc. done. }
  split.
  { apply set_eq. intros k. rewrite !elem_of_dom. apply is_Some_Dec. }
  split; [|split]; apply map_eq; intros k;
    (destruct (decide (k = ep)) as [->|Hk];
       [|destruct (decide (k = ep')) as [->|Hk']]);
    rewrite ?HIa, ?HDa, ?HI, ?HDc, ?HIa, ?HDa, ?HI, ?HDc by done; done.
Qed.

Lemma inflight_other_endpoints_witness :
  IncInflight "sync" (DecInflight "async" (<["async" := 2]> ∅))
  = DecInflight "async" (IncInflight "sync" (<["async" := 2]> ∅)).
Proof.
  by apply (inflight_other_endpoints "sync" "async").
Defined.

(** ** More on the configuration *)

Lemma Getenv_empty (env : gmap string string) (key k : string) :
  Getenv (<[key := ""]> env) k = Getenv (delete key env) k.
Proof.
  unfold Getenv. destruct (decide (key = k)) as [->|Hne].
  - by rewrite lookup_insert_eq, lookup_delete_eq.
  - by rewrite lookup_insert_ne, lookup_delete_ne.
Qed.

(** X17: A variable set to the empty string is read as one that is not set:
    the configuration, and the handlers [main] builds from it, are those
    of the environment without the variable. *)
Theorem empty_variable_as_unset (env : gmap string string) (key : string) :
  Load (<[key := ""]> env) = Load (delete key env) ∧
  serverHandlers (<[key := ""]> env) = serverHandlers (delete key env).
Proof.
  assert (Load (<[key := ""]> env) = Load (delete key env)) as HL.
  { unfold Load, getEnv, getEnvInt. by rewrite !Getenv_empty. }
  split; [done|]. unfold serverHandlers. by rewrite HL.
Qed.

(** X18: [main] panics while making the semaphore exactly when
    [B_CONCURRENCY_LIMIT] holds a negative integer; with any other content
    (unset, empty, not an integer, out of the range of [int]) or a
    non-negative integer the handlers are created, with an empty semaphore
    of the configured capacity. *)
Theorem server_start (env : gmap string string) :
  (serverHandlers env = None ↔
   ∃ s n, env !! "B_CONCURRENCY_LIMIT" = Some s ∧ Atoi s = Some n ∧ n < 0) ∧
  (∀ h, serverHandlers env = Some h →
        0 <= chan_cap (SemB h) ∧ chan_len (SemB h) = 0 ∧
        chan_cap (SemB h) = default 20 (env !! "B_CONCURRENCY_LIMIT" ≫= Atoi) ∧
        TimeoutMs h = default 600 (env !! "ASYNC_TIMEOUT_MS" ≫= Atoi)).
Proof.
  unfold serverHandlers, Load. simpl. rewrite !getEnvInt_spec. unfold make_chan.
  split.
  - destruct (env !! "B_CONCURRENCY_LIMIT") as [s|] eqn:Hs; simpl.
    + destruct (Atoi s) as [n|] eqn:Hn; simpl.
      * destruct (Z.ltb_spec n 0); simpl.
        -- split; [|done]. intros _. by exists s, n.
        -- split; [done|]. intros (s' & n' & ? & ? & ?). simplify_eq. lia.
      * split; [done|]. intros (s' & n' & ? & ? & ?). simplify_eq.
    + split; [done|]. by intros (s' & n' & ? & ? & ?).
  - intros h Hh.
    destruct (Z.ltb_spec (default 20 (env !! "B_CONCURRENCY_LIMIT" ≫= Atoi)) 0);
      simplify_eq/=. done.
Qed.
